(** * A shallow embedding of the fit-optimizing layout engine of svgtextbox

    The Rust crate lays text out with Pango and searches font sizes and box
    dimensions for the largest font size that fits.  Pango itself is an
    external oracle; it is modelled here as a record of functions on an
    explicit layout state.  Everything the crate computes on top of the
    oracle (the fit predicate, the binary search of [slice::binary_search_by]
    as shipped with the Rust standard library the crate was written against,
    the layout manager, the textbox candidate lists, the font-size parsing
    and the background rectangle) is translated from the source. *)

From Stdlib Require Import ZArith List Lia Bool Sorted String Ascii Permutation.
Import ListNotations.
Open Scope Z_scope.

(** ** Results and errors (src/errors.rs, std::result) *)

Inductive result (A E : Type) : Type :=
| Ok : A -> result A E
| Err : E -> result A E.
Arguments Ok {A E} _.
Arguments Err {A E} _.

(** The variants of [SvgTextBoxError] the engine produces. *)
Inductive SvgTextBoxError : Type :=
| UnexpectedNone
| CouldNotFit
| NoValidFontSizes
| NoValidHeights
| NoValidWidths.

(** [std::cmp::Ordering] *)
Inductive Ordering : Type := Less | Equal | Greater.

Definition ordering_eqb (a b : Ordering) : bool :=
  match a, b with
  | Less, Less | Equal, Equal | Greater, Greater => true
  | _, _ => false
  end.

(** [pango::SCALE] *)
Definition SCALE : Z := 1024.

(** ** The Pango layout state and the shaping oracle (src/layout.rs)

    A [pango::Layout] is a mutable handle.  The fields the engine writes
    are its box (set_width / set_height), the size of its font description
    (set_font_size) and its text (set_markup); everything else the oracle
    reports is a function of this state. *)
Record Layout : Type := mkLayout {
  lay_width : Z;
  lay_height : Z;
  lay_font_size : Z;
  lay_text : string   (* the UTF-8 bytes of the layout's text *)
}.

(** pango's ink-extent rectangle *)
Record Rectangle : Type := mkRect {
  rect_x : Z; rect_y : Z; rect_width : Z; rect_height : Z
}.

(** The signals the engine reads from Pango. *)
Record Oracle : Type := mkOracle {
  is_ellipsized : Layout -> bool;
  get_ink_extents : Layout -> Rectangle;
  (** [xy_to_index(x, y)] returns (inside, byte index, trailing) *)
  xy_to_index : Layout -> Z -> Z -> bool * Z * Z;
  (** the text Pango extracts from a markup string *)
  markup_text : string -> string
}.

Definition set_width (l : Layout) (w : Z) : Layout :=
  mkLayout w (lay_height l) (lay_font_size l) (lay_text l).

Definition set_height (l : Layout) (h : Z) : Layout :=
  mkLayout (lay_width l) h (lay_font_size l) (lay_text l).

(** [LayoutExtension::set_font_size]: the font description is fetched,
    its size replaced and the description set back. *)
Definition set_font_size (l : Layout) (n : Z) : Layout :=
  mkLayout (lay_width l) (lay_height l) n (lay_text l).

(** [LayoutExtension::font_size] *)
Definition font_size (l : Layout) : Z := lay_font_size l.

Section Engine.

Variable o : Oracle.

(** [LayoutExtension::fits] (src/layout.rs, lines 278-295).  The byte
    index of the character nearest the bottom-right corner is compared
    with [text_string.len() as i32 - 1]; texts are taken to be shorter
    than 2^31 bytes, so the cast does not wrap. *)
Definition fits (l : Layout) : bool :=
  let '(_inside, last_char_index, _trailing) :=
    xy_to_index o l (lay_width l) (lay_height l) in
  let text_string := lay_text l in
  let dropped_chars :=
    negb (Z.eqb last_char_index (Z.of_nat (String.length text_string) - 1)) in
  negb (is_ellipsized o l || dropped_chars).

(** [change_size_and_check_fits]: a stateful comparator. *)
Definition change_size_and_check_fits (size : Z) (l : Layout)
  : Ordering * Layout :=
  let l' := set_font_size l size in
  (if fits l' then Less else Greater, l').

End Engine.

(** ** [<[T]>::binary_search_by] with a stateful comparator

    The comparator of [grow_to_maximum_font_size] mutates the layout, so
    the search threads a state [S] through every call of [f].  The loop is
    the one of the Rust standard library (1.27 to 1.51):

    let mut size = s.len();
    if size == 0 { return Err(0); }
    let mut base = 0usize;
    while size > 1 {
        let half = size / 2;
        let mid = base + half;
        let cmp = f(s.get_unchecked(mid));
        base = if cmp == Greater { base } else { mid };
        size -= half;
    }
    let cmp = f(s.get_unchecked(base));
    if cmp == Equal { Ok(base) } else { Err(base + (cmp == Less) as usize) }

    [size] strictly decreases while it exceeds 1, so [s.len()] rounds of
    the loop are always enough; [fuel] counts them. *)
Section BinarySearch.

Context {S T : Type}.
Variable f : T -> S -> Ordering * S.
Variable s : list T.
Variable dflt : T.

Fixpoint search_loop (fuel : nat) (base size : nat) (st : S) : nat * S :=
  match fuel with
  | O => (base, st)
  | Datatypes.S fuel' =>
      if Nat.leb size 1 then (base, st)
      else
        let half := Nat.div size 2 in
        let mid := (base + half)%nat in
        let '(cmp, st') := f (nth mid s dflt) st in
        let base' := if ordering_eqb cmp Greater then base else mid in
        search_loop fuel' base' (size - half)%nat st'
  end.

Definition binary_search_by (st : S) : result nat nat * S :=
  let size := List.length s in
  if Nat.eqb size 0 then (Err 0%nat, st)
  else
    let '(base, st1) := search_loop size 0 size st in
    let '(cmp, st2) := f (nth base s dflt) st1 in
    if ordering_eqb cmp Equal then (Ok base, st2)
    else (Err (base + (if ordering_eqb cmp Less then 1 else 0))%nat, st2).

End BinarySearch.

(** [Result::err]: the error, if any. *)
Definition result_err {A E} (r : result A E) : option E :=
  match r with Ok _ => None | Err e => Some e end.

Section Grow.

Variable o : Oracle.

(** [LayoutExtension::grow_to_maximum_font_size] (src/layout.rs, lines
    306-325): returns [Result<(), SvgTextBoxError>] and the layout state
    it leaves behind. *)
Definition grow_to_maximum_font_size (v : list Z) (l : Layout)
  : result unit SvgTextBoxError * Layout :=
  let '(search_result, l1) :=
    binary_search_by (change_size_and_check_fits o) v 0 l in
  match result_err search_result with
  | None => (Err UnexpectedNone, l1)
  | Some index =>
      if Nat.eqb index 0 then (Err CouldNotFit, l1)
      else
        let last_fit := (index - 1)%nat in
        match nth_error v last_fit with
        | None => (Err UnexpectedNone, l1)
        | Some r => (Ok tt, set_font_size l1 r)
        end
  end.

End Grow.

(** ** The reference behaviour of the font-size selector (spec, section 8)

    A linear scan over the ascending candidates that keeps the last (hence
    largest) candidate at which the layout fits. *)
Definition linear_scan_max (fits_at : Z -> bool) (v : list Z) : option Z :=
  fold_left (fun acc x => if fits_at x then Some x else acc) v None.

(** The fit judgement as section 4.2 of the spec words it: the three
    signals, with the ink-extent rectangle checked against the box. *)
Definition fits_three_signals (o : Oracle) (l : Layout) : bool :=
  let ink := get_ink_extents o l in
  let '(_inside, last_char_index, _trailing) :=
    xy_to_index o l (lay_width l) (lay_height l) in
  negb (is_ellipsized o l) &&
  (0 <=? rect_x ink) && (0 <=? rect_y ink) &&
  (rect_x ink + rect_width ink <=? lay_width l) &&
  (rect_y ink + rect_height ink <=? lay_height l) &&
  (last_char_index =? Z.of_nat (String.length (lay_text l)) - 1).

(** An oracle used for concrete runs: the text overflows the box once the
    font size exceeds [max_size] (and is then ellipsized); the ink extents
    are [ink]; the character nearest the bottom-right corner is the last
    byte of the text. *)
Definition threshold_oracle (max_size : Z -> Z -> Z) (ink : Rectangle) : Oracle :=
  mkOracle
    (fun l => max_size (lay_width l) (lay_height l) <? lay_font_size l)
    (fun _ => ink)
    (fun l _ _ => (true, Z.of_nat (String.length (lay_text l)) - 1, 0))
    (fun m => m).

(** ** The layout manager (src/layout.rs, lines 196-260) *)

(** A [LayoutSource]: its iterators, each re-created on every call,
    yield the same values every time, so they are lists here. *)
Record LayoutSource : Type := mkLayoutSource {
  possible_font_sizes : list Z;
  possible_heights : list Z;
  possible_widths : list Z;
  font_description_size : Z;
  markup : string
}.

Record LayoutManager : Type := mkLayoutManager {
  dimensions : list (Z * Z);
  font_sizes : list Z;
  base_layout : Layout
}.

(** [BTreeSet::insert] on the ascending list of a set's elements. *)
Fixpoint btree_insert (x : Z) (s : list Z) : list Z :=
  match s with
  | [] => [x]
  | y :: t =>
      if x <? y then x :: s
      else if x =? y then s
      else y :: btree_insert x t
  end.

(** [.collect::<BTreeSet<i32>>().into_iter().collect::<Vec<i32>>()] *)
Definition btreeset_collect (l : list Z) : list Z :=
  fold_left (fun s x => btree_insert x s) l [].

(** [iter.flat_map(move |v| iter::repeat(v).zip(heights))] *)
Definition cartesian (ws hs : list Z) : list (Z * Z) :=
  flat_map (fun w => map (fun h => (w, h)) hs) ws.

(** [LayoutManager::new].  Pango's default font map and context are
    taken to be available (the [UnexpectedNone] branches are not taken);
    a fresh layout has no width or height set (-1). *)
Definition LayoutManager_new (o : Oracle) (src : LayoutSource)
  : result LayoutManager SvgTextBoxError :=
  let layout := mkLayout (-1) (-1) (font_description_size src)
                         (markup_text o (markup src)) in
  let fs := btreeset_collect (possible_font_sizes src) in
  match fs with
  | [] => Err NoValidFontSizes
  | _ =>
    match possible_heights src with
    | [] => Err NoValidHeights
    | _ =>
      match possible_widths src with
      | [] => Err NoValidWidths
      | _ =>
        Ok (mkLayoutManager
              (cartesian (possible_widths src) (possible_heights src))
              fs layout)
      end
    end
  end.

(** The loop of [LayoutManager::get_best_fit] over the remaining
    dimensions, threading the layout. *)
Fixpoint best_fit_loop (o : Oracle) (fs : list Z) (dims : list (Z * Z))
  (l : Layout) : result Layout SvgTextBoxError :=
  match dims with
  | [] => Err CouldNotFit
  | (width, height) :: rest =>
      let l1 := set_height (set_width l width) height in
      let '(r, l2) := grow_to_maximum_font_size o fs l1 in
      match r with
      | Ok _ => Ok l2
      | Err CouldNotFit => best_fit_loop o fs rest l2
      | Err e => Err e
      end
  end.

Definition get_best_fit (o : Oracle) (m : LayoutManager)
  : result Layout SvgTextBoxError :=
  best_fit_loop o (font_sizes m) (dimensions m) (base_layout m).

(** The probing order of section 4.4 of the spec for a flexible width
    and a flexible height: the widths at the smallest height, then the
    heights at the largest width. *)
Definition spec_flex_flex_order (ws hs : list Z) : list (Z * Z) :=
  map (fun w => (w, fold_left Z.min hs (hd 0 hs))) ws ++
  map (fun h => (fold_left Z.max ws (hd 0 ws), h)) hs.

(** The first candidate of [dims] at which the font search succeeds. *)
Fixpoint first_fitting_dimension (o : Oracle) (fs : list Z) (l : Layout)
  (dims : list (Z * Z)) : option (Z * Z) :=
  match dims with
  | [] => None
  | (w, h) :: rest =>
      match fst (grow_to_maximum_font_size o fs (set_height (set_width l w) h)) with
      | Ok _ => Some (w, h)
      | Err _ => first_fitting_dimension o fs l rest
      end
  end.

(** ** Integer ranges, [step_by], sorting and hash sets *)

(** [a..=b] *)
Definition range_inclusive (a b : Z) : list Z :=
  if a <=? b then map (fun k => a + Z.of_nat k) (seq 0 (S (Z.to_nat (b - a))))
  else [].

(** [Iterator::step_by]: the first element, then every [k+1]-th one. *)
Fixpoint step_go {A} (k : nat) (skip : nat) (l : list A) : list A :=
  match l with
  | [] => []
  | x :: t =>
      match skip with
      | O => x :: step_go k k t
      | S s' => step_go k s' t
      end
  end.

(** [step_by(0)] panics; [None] stands for the panic. *)
Definition step_by {A} (l : list A) (step : nat) : option (list A) :=
  match step with
  | O => None
  | S k => Some (step_go k 0 l)
  end.

(** [slice::sort_unstable] on integers (the order is total, so every
    sorting algorithm gives this result). *)
Fixpoint insert_sorted (x : Z) (l : list Z) : list Z :=
  match l with
  | [] => [x]
  | y :: t => if x <=? y then x :: l else y :: insert_sorted x t
  end.

Fixpoint sort_unstable (l : list Z) : list Z :=
  match l with
  | [] => []
  | x :: t => insert_sorted x (sort_unstable t)
  end.

(** A [HashSet<i32>] or [HashSet<u16>] is the list of its elements,
    pairwise distinct, in some iteration order; [collect] drops repeats. *)
Definition hashset_collect (l : list Z) : list Z := nodup Z.eq_dec l.

(** ** Whitespace splitting and integer parsing ([str::split_whitespace],
    [str::parse]) on ASCII text *)

Definition is_whitespace (c : ascii) : bool :=
  match nat_of_ascii c with
  | 32 | 9 | 10 | 11 | 12 | 13 => true
  | _ => false
  end%nat.

(** [cur] is the reversed token being read. *)
Fixpoint split_ws_go (s : string) (cur : list ascii) : list string :=
  match s with
  | EmptyString =>
      match cur with [] => [] | _ => [string_of_list_ascii (rev cur)] end
  | String c rest =>
      if is_whitespace c then
        match cur with
        | [] => split_ws_go rest []
        | _ => string_of_list_ascii (rev cur) :: split_ws_go rest []
        end
      else split_ws_go rest (c :: cur)
  end.

Definition split_whitespace (s : string) : list string := split_ws_go s [].

(** A token: a string without whitespace. *)
Fixpoint no_whitespace (s : string) : bool :=
  match s with
  | EmptyString => true
  | String c rest => negb (is_whitespace c) && no_whitespace rest
  end.

(** [s.chars().all(char::is_whitespace)] *)
Fixpoint all_whitespace (s : string) : bool :=
  match s with
  | EmptyString => true
  | String c rest => is_whitespace c && all_whitespace rest
  end.

Definition digit_of (c : ascii) : option Z :=
  let n := Z.of_nat (nat_of_ascii c) in
  if (48 <=? n) && (n <=? 57) then Some (n - 48) else None.

(** The digit loop of [from_str_radix] (radix 10) with [checked_mul] and
    [checked_add] (positive) or [checked_sub] (negative) on the range
    [lo, hi] of the integer type. *)
Fixpoint parse_digits (positive : bool) (lo hi acc : Z) (s : string) : option Z :=
  match s with
  | EmptyString => Some acc
  | String c rest =>
      match digit_of c with
      | None => None
      | Some d =>
          let m := acc * 10 in
          if (m <? lo) || (hi <? m) then None
          else
            let a := if positive then m + d else m - d in
            if (a <? lo) || (hi <? a) then None
            else parse_digits positive lo hi a rest
      end
  end.

(** [from_str_radix(src, 10)]; any [ParseIntError] is [None]. *)
Definition parse_int (signed : bool) (lo hi : Z) (src : string) : option Z :=
  match src with
  | EmptyString => None
  | String c rest =>
      let '(positive, digits) :=
        if Ascii.eqb c "+"%char then (true, rest)
        else if signed && Ascii.eqb c "-"%char then (false, rest)
        else (true, src) in
      match digits with
      | EmptyString => None
      | _ => parse_digits positive lo hi 0 digits
      end
  end.

Definition parse_u16 : string -> option Z := parse_int false 0 65535.
Definition parse_i32 : string -> option Z := parse_int true (-2147483648) 2147483647.

(** ** Textboxes (src/textbox.rs) *)

(** [UnitContainer]: a [BTreeSet<NonZeroU16>], kept as its ascending
    list of elements, or a range with an optional step. *)
Inductive UnitContainer : Type :=
| AsSet (s : list Z)
| AsRange (min max : Z) (step : option nat).

(** [UnitContainer::iter]; [None] is the panic of [step_by(0)]. *)
Definition unit_iter (u : UnitContainer) : option (list Z) :=
  match u with
  | AsSet s => Some s
  | AsRange min max step =>
      let r := range_inclusive min max in
      match step with
      | Some k => step_by r k
      | None => Some r
      end
  end.

Record PaddingSpecification : Type := mkPadding {
  pad_top : Z; pad_bottom : Z; pad_left : Z; pad_right : Z   (* u16 each *)
}.

(** [u16] addition; the overflow panics (debug build), [None] here. *)
Definition u16_add (a b : Z) : option Z :=
  if a + b <=? 65535 then Some (a + b) else None.

Definition total_horizontal_padding (p : PaddingSpecification) : option Z :=
  u16_add (pad_left p) (pad_right p).

Definition total_vertical_padding (p : PaddingSpecification) : option Z :=
  u16_add (pad_top p) (pad_bottom p).

Record TextBox : Type := mkTextBox {
  tb_markup : string;
  tb_width : UnitContainer;
  tb_height : UnitContainer;
  tb_font_desc_size : Z;
  tb_font_size : UnitContainer;
  tb_padding : PaddingSpecification
}.

(** [iter.map(|n| n * SCALE).map(move |n| n - pad * SCALE)]: the padding
    is computed (and may panic) once per element, so an empty spec never
    reaches it. *)
Definition padded_candidates (vs : list Z) (pad : option Z) : option (list Z) :=
  match vs with
  | [] => Some []
  | _ => option_map (fun p => map (fun n => n * SCALE - p * SCALE) vs) pad
  end.

Definition option_bind {A B} (x : option A) (f : A -> option B) : option B :=
  match x with Some a => f a | None => None end.

(** [<TextBox as LayoutSource>::possible_widths] *)
Definition tb_possible_widths (tb : TextBox) : option (list Z) :=
  option_bind (unit_iter (tb_width tb)) (fun vs =>
    padded_candidates vs (total_horizontal_padding (tb_padding tb))).

(** [<TextBox as LayoutSource>::possible_heights]: as in the source, the
    values are read from [self.width]. *)
Definition tb_possible_heights (tb : TextBox) : option (list Z) :=
  option_bind (unit_iter (tb_width tb)) (fun vs =>
    padded_candidates vs (total_vertical_padding (tb_padding tb))).

(** [<TextBox as LayoutSource>::possible_font_sizes] *)
Definition tb_possible_font_sizes (tb : TextBox) : option (list Z) :=
  option_map (map (fun n => n * SCALE)) (unit_iter (tb_font_size tb)).

(** The textbox seen through [LayoutSource]; [None] when an iterator
    panics. *)
Definition textbox_source (tb : TextBox) : option LayoutSource :=
  option_bind (tb_possible_font_sizes tb) (fun fs =>
  option_bind (tb_possible_heights tb) (fun hs =>
  option_bind (tb_possible_widths tb) (fun ws =>
  Some (mkLayoutSource fs hs ws (tb_font_desc_size tb) (tb_markup tb))))).

(** ** Font sizing (src/fontsizing.rs) *)
Module Fontsizing.

(** [FontSizing]; [Flex] holds a [HashSet<u16>] as its list of elements. *)
Inductive FontSizing : Type :=
| Static (i : Z)
| Range (min max : Z) (step : option nat)
| Flex (h : list Z).

Definition default : FontSizing := Range 10 30 None.

(** [FontSizing::to_vec]; [None] is the panic of [step_by(0)]. *)
Definition to_vec (f : FontSizing) : option (list Z) :=
  match f with
  | Static i => Some [i]
  | Flex h => Some (sort_unstable h)
  | Range min max step =>
      let r := range_inclusive min max in
      match step with
      | Some s => step_by r s
      | None => Some r
      end
  end.

(** [FontSizing::from_vec] *)
Definition from_vec (v : list Z) : FontSizing :=
  match v with
  | [] => default
  | [single_value] => Static single_value
  | [first; second] =>
      if second <? first then Flex (hashset_collect v)
      else if first <? second then
        (* [Range{min: first, max: second, step: None}.to_vec()] *)
        Flex (hashset_collect (range_inclusive first second))
      else Flex (hashset_collect v)
  | _ => Flex (hashset_collect v)
  end.

(** [collect::<Result<Vec<u16>, _>>]: the first error wins. *)
Fixpoint collect_results (l : list (option Z)) : option (list Z) :=
  match l with
  | [] => Some []
  | x :: t =>
      match x with
      | None => None
      | Some v => option_map (cons v) (collect_results t)
      end
  end.

(** [<FontSizing as FromStr>::from_str]; [None] is a [ParseIntError]. *)
Definition from_str (s : string) : option FontSizing :=
  option_map from_vec (collect_results (map parse_u16 (split_whitespace s))).

(** [set_min_size] and [set_max_size] *)
Definition set_min_size (f : FontSizing) (s : Z) : FontSizing :=
  match f with
  | Range _ max step => Range s max step
  | _ => Range s 500 None
  end.

Definition set_max_size (f : FontSizing) (s : Z) : FontSizing :=
  match f with
  | Range min _ step => Range min s step
  | _ => Range 1 s None
  end.

(** The validity the spec asks of a specification (section 3): a
    non-empty set, a range with [min <= max] and a step of at least 1. *)
Definition valid (f : FontSizing) : Prop :=
  match f with
  | Static _ => True
  | Flex h => h <> [] /\ NoDup h
  | Range min max step => min <= max /\ step <> Some 0%nat
  end.

End Fontsizing.

(** ** Input parsing (src/input.rs) *)
Module Input.

Inductive LayoutError : Type :=
| IntsFromString (msg : string)
| ParseIntError
| BadFontRange.

(** [input::FontSizing] *)
Inductive FontSizing : Type :=
| Static (i : Z)
| Selection (v : list Z).

Definition DEFAULT_MAX_FONT_SIZE : Z := 500.
Definition DEFAULT_MIN_FONT_SIZE : Z := 0.

(** [FontSizing::from_range] *)
Definition from_range (min max : option Z) : result FontSizing LayoutError :=
  match min, max with
  | Some min, None => Ok (Selection (range_inclusive min DEFAULT_MAX_FONT_SIZE))
  | None, Some max => Ok (Selection (range_inclusive DEFAULT_MIN_FONT_SIZE max))
  | None, None =>
      Ok (Selection (range_inclusive DEFAULT_MIN_FONT_SIZE DEFAULT_MAX_FONT_SIZE))
  | Some min, Some max =>
      if max <? min then Err BadFontRange
      else Ok (Selection (range_inclusive min max))
  end.

(** The loop of [ints_from_str] over the tokens. *)
Fixpoint parse_positive_ints (source : string) (toks : list string)
  : result (list Z) LayoutError :=
  match toks with
  | [] => Ok []
  | t :: rest =>
      match parse_i32 t with
      | None => Err ParseIntError
      | Some i =>
          if 0 <? i then
            match parse_positive_ints source rest with
            | Ok l => Ok (i :: l)
            | Err e => Err e
            end
          else Err (IntsFromString source)
      end
  end.

(** [FromHashMap::ints_from_str]: the result is a [HashSet<i32>]. *)
Definition ints_from_str (source : string) : result (list Z) LayoutError :=
  match source with
  | EmptyString => Err (IntsFromString source)
  | _ =>
      match parse_positive_ints source (split_whitespace source) with
      | Err e => Err e
      | Ok ints =>
          let ints :=
            match ints with
            | [a; b] => if (a <? b) && negb (b =? a) then range_inclusive a b else ints
            | _ => ints
            end in
          Ok (hashset_collect ints)
      end
  end.

End Input.

(** ** Rendered output (src/layout.rs, lines 113-181) *)
Module Rendered.

Definition quote : string := String (ascii_of_nat 34) EmptyString.
Definition newline : string := String (ascii_of_nat 10) EmptyString.

(** [BTreeMap<&str, String>]: an association list kept strictly
    ascending in its keys, ordered as [str] is (bytewise). *)
Fixpoint btree_map_insert (k v : string) (m : list (string * string))
  : list (string * string) :=
  match m with
  | [] => [(k, v)]
  | (k', v') :: t =>
      match String.compare k k' with
      | Lt => (k, v) :: m
      | Eq => (k, v) :: t
      | Gt => (k', v') :: btree_map_insert k v t
      end
  end.

(** Lookup in an association list: [BTreeMap::get], and [HashMap::get]
    for a [HashMap] given as the list of its entries in iteration order
    (its keys are distinct). *)
Fixpoint get (k : string) (m : list (string * string)) : option string :=
  match m with
  | [] => None
  | (k', v) :: t => if String.eqb k k' then Some v else get k t
  end.

(** [iter().collect::<BTreeMap<_, _>>()] *)
Definition btree_map_collect (l : list (string * string)) : list (string * string) :=
  fold_left (fun m kv => btree_map_insert (fst kv) (snd kv) m) l [].

(** [Vec<String>::join] *)
Fixpoint join (sep : string) (l : list string) : string :=
  match l with
  | [] => EmptyString
  | [x] => x
  | x :: t => x ++ sep ++ join sep t
  end.

(** [str::replace] for a non-empty pattern: every non-overlapping match,
    scanning from the left, is replaced. The fuel is the length of the
    input, which bounds the number of steps. *)
Fixpoint replace_go (fuel : nat) (from to s : string) : string :=
  match fuel with
  | O => s
  | S f =>
      match s with
      | EmptyString => EmptyString
      | String c t =>
          if String.prefix from s
          then to ++ replace_go f from to
                        (substring (String.length from) (String.length s) s)
          else String c (replace_go f from to t)
      end
  end.

Definition replace (s from to : string) : string :=
  replace_go (String.length s) from to s.

Section Render.

(** The floating-point type [f64] and its [to_string]. *)
Variable f64 : Type.
Variable f64_to_string : f64 -> string.

Record RenderedTextbox : Type := mkRenderedTextbox {
  src : string;
  width : f64;
  height : f64
}.

(** The map [a] of [insert_background_rect] *)
Definition rect_attrs (self : RenderedTextbox) (attrs : list (string * string))
  : list (string * string) :=
  let a := btree_map_collect attrs in
  let a := btree_map_insert "x" "0" a in
  let a := btree_map_insert "y" "0" a in
  let a := btree_map_insert "width" (f64_to_string (width self)) a in
  btree_map_insert "height" (f64_to_string (height self)) a.

(** [format!("{}=\"{}\"", k, v)] *)
Definition render_attr (kv : string * string) : string :=
  fst kv ++ "=" ++ quote ++ snd kv ++ quote.

Definition padding_rect (self : RenderedTextbox) (attrs : list (string * string))
  : string :=
  let b := join " " (map render_attr (rect_attrs self attrs)) in
  "</defs>" ++ newline ++ "<g>" ++ newline ++ "<rect " ++ b ++ "/>"
    ++ newline ++ "</g>".

(** [RenderedTextbox::insert_background_rect]: the updated textbox. *)
Definition insert_background_rect (self : RenderedTextbox)
  (attrs : list (string * string)) : result RenderedTextbox SvgTextBoxError :=
  Ok (mkRenderedTextbox (replace (src self) "</defs>" (padding_rect self attrs))
        (width self) (height self)).

End Render.

Arguments mkRenderedTextbox {f64} src width height.
Arguments src {f64} r.
Arguments width {f64} r.
Arguments height {f64} r.
Arguments rect_attrs {f64} f64_to_string self attrs.
Arguments padding_rect {f64} f64_to_string self attrs.
Arguments insert_background_rect {f64} f64_to_string self attrs.

End Rendered.

(** ** The older layout engine (src/lib.rs, lines 134-157 and 581-670) *)
Module Lib.

(** lib.rs's own [LayoutError] *)
Inductive LayoutError : Type :=
| MarkupTooLong
| MarkupNullChar
| MarkupWhitespace
| BadMarkup (msg : string)
| Distance
| WidthNotSet
| HeightNotSet
| MinFontSize
| StaticFontNoFit
| FontDescriptionStr
| Utf8Error (msg : string)
| Io (msg : string).

(** [LayoutSizing::MAX_FONT_SIZE] *)
Definition MAX_FONT_SIZE : Z := 500.

Section LayoutSizing.

Variable o : Oracle.
(** [LayoutSizing::last_char_index]: the byte index Pango reports at the
    right edge of the last line, a function of the layout. *)
Variable last_char_index : Layout -> Z.

(** [<pango::Layout as LayoutSizing>::fits]: not ellipsized and the ink
    extents inside the box. *)
Definition fits (l : Layout) : bool :=
  let ellipsized := is_ellipsized o l in
  let ink_extents := get_ink_extents o l in
  let northwest_bounds_exceeded := (rect_x ink_extents <? 0) || (rect_y ink_extents <? 0) in
  let southeast_bounds_exceeded :=
    (lay_height l <? rect_height ink_extents + rect_y ink_extents) ||
    (lay_width l <? rect_width ink_extents + rect_x ink_extents) in
  negb (ellipsized || northwest_bounds_exceeded || southeast_bounds_exceeded).

(** [change_font_size]: the size of the layout's font description is
    replaced. *)
Definition change_font_size (l : Layout) (new_font_size : Z) : Layout :=
  set_font_size l new_font_size.

(** The closure [will_fit] of [grow_to_maximum_font_size], applied to
    [i * pango::SCALE]. *)
Definition will_fit (orig_last_char : Z) (i : Z) (l : Layout) : Ordering * Layout :=
  let l' := change_font_size l (i * SCALE) in
  (if fits l' && Z.eqb (last_char_index l') orig_last_char then Less else Greater, l').

(** [<pango::Layout as LayoutSizing>::grow_to_maximum_font_size]; [None]
    is a panic (of [unwrap] or of the indexing). *)
Definition grow_to_maximum_font_size (l : Layout)
  : option (result Z LayoutError * Layout) :=
  let orig_last_char := last_char_index l in
  let font_sizes_vec := range_inclusive 0 (MAX_FONT_SIZE - 1) in
  let '(search_result, l1) :=
    binary_search_by (will_fit orig_last_char) font_sizes_vec 0 l in
  match result_err search_result with
  | None => None
  | Some index =>
      if Z.of_nat index <? 1 then Some (Err MinFontSize, l1)
      else
        let usize_i := if Nat.eqb index 1 then 1%nat else (index - 1)%nat in
        match nth_error font_sizes_vec usize_i with
        | None => None
        | Some result => Some (Ok result, change_font_size l1 (result * SCALE))
        end
  end.

End LayoutSizing.

End Lib.

(** ** More of src/textbox.rs *)

(** [<TextBox as LayoutSource>::output_width]: [i32] division truncates
    toward zero, and [f64::from] of an [i32] is exact, so the value is
    kept as an integer; [None] is the panic of the [u16] padding sum. *)
Definition tb_output_width (tb : TextBox) (layout_width : Z) : option Z :=
  option_map (fun p => Z.quot layout_width SCALE + p)
    (total_horizontal_padding (tb_padding tb)).

(** [<TextBox as LayoutSource>::output_height] *)
Definition tb_output_height (tb : TextBox) (layout_height : Z) : option Z :=
  option_map (fun p => Z.quot layout_height SCALE + p)
    (total_vertical_padding (tb_padding tb)).

(** The deserialisers of [UnitContainer] and [PaddingSpecification]
    (src/textbox.rs, lines 308-469).  A serde sequence or map is the list
    of its elements, each an integer; an element that is not an integer
    is not represented.  [None] is a panic. *)
Module Serde.

(** The serde errors the visitors raise: [invalid_value] (also standing
    for an element that does not deserialise) and [invalid_length]. *)
Inductive DeError : Type :=
| InvalidValue
| InvalidLength (len : nat).

(** Deserialising a [NonZeroU16] or a [u16] from an integer. *)
Definition as_nonzero_u16 (v : Z) : option Z :=
  if (1 <=? v) && (v <=? 65535) then Some v else None.

Definition as_u16 (v : Z) : option Z :=
  if (0 <=? v) && (v <=? 65535) then Some v else None.

(** [str::parse::<NonZeroU16>] *)
Definition parse_nonzero_u16 (t : string) : option Z :=
  option_bind (parse_u16 t) as_nonzero_u16.

(** [UnitContainerVisitor::visit_str] *)
Definition unit_visit_str (v : string) : result UnitContainer DeError :=
  match Fontsizing.collect_results (map parse_nonzero_u16 (split_whitespace v)) with
  | None => Err InvalidValue
  | Some ints =>
      let integers := btreeset_collect ints in
      if Nat.eqb (List.length integers) 0 then Err (InvalidLength 0)
      else Ok (AsSet integers)
  end.

(** [UnitContainerVisitor::visit_seq] *)
Fixpoint unit_seq_go (seq : list Z) (values : list Z) : result (list Z) DeError :=
  match seq with
  | [] => Ok values
  | v :: rest =>
      match as_nonzero_u16 v with
      | None => Err InvalidValue
      | Some v => unit_seq_go rest (btree_insert v values)
      end
  end.

Definition unit_visit_seq (seq : list Z) : result UnitContainer DeError :=
  match unit_seq_go seq [] with
  | Err e => Err e
  | Ok values =>
      if Nat.eqb (List.length values) 0 then Err (InvalidLength 0)
      else Ok (AsSet values)
  end.

(** [UnitContainerVisitor::visit_map]: entries in the map's order. *)
Fixpoint unit_map_go (entries : list (string * Z)) (min max : option Z)
  (step : option nat) : result UnitContainer DeError :=
  match entries with
  | [] =>
      let max := match max with Some m => m | None => 65535 end in
      let min := match min with Some m => m | None => 1 end in
      Ok (AsRange min max step)
  | (k, v) :: rest =>
      match as_nonzero_u16 v with
      | None => Err InvalidValue
      | Some v =>
          if String.eqb k "min" then unit_map_go rest (Some v) max step
          else if String.eqb k "max" then unit_map_go rest min (Some v) step
          else if String.eqb k "step" then unit_map_go rest min max (Some (Z.to_nat v))
          else unit_map_go rest min max step
      end
  end.

Definition unit_visit_map (entries : list (string * Z)) : result UnitContainer DeError :=
  unit_map_go entries None None None.

(** [UnitContainerVisitor::visit_u64] *)
Definition unit_visit_u64 (v : Z) : result UnitContainer DeError :=
  if 65535 <? v then Err InvalidValue
  else match as_nonzero_u16 v with
       | None => Err InvalidValue
       | Some u => Ok (AsSet (btreeset_collect [u]))
       end.

(** [values[..4]]: panics when there are fewer than four values. *)
Definition slice_to_4 (values : list Z) : option (list Z) :=
  if Nat.ltb (List.length values) 4 then None else Some (firstn 4 values).

(** The [match] on the slice, CSS order (top, right, bottom, left);
    [None] is [unreachable!()]. *)
Definition padding_of_slice (values : list Z) : option PaddingSpecification :=
  match values with
  | [] => Some (mkPadding 0 0 0 0)
  | [i] => Some (mkPadding i i i i)
  | [top_and_bottom; right_and_left] =>
      Some (mkPadding top_and_bottom top_and_bottom right_and_left right_and_left)
  | [top; right_and_left; bottom] =>
      Some (mkPadding top bottom right_and_left right_and_left)
  | [top; right0; bottom; left0] => Some (mkPadding top bottom left0 right0)
  | _ => None
  end.

(** [PaddingSpecificationVisitor::visit_str] *)
Definition padding_visit_str (v : string) : option (result PaddingSpecification DeError) :=
  match Fontsizing.collect_results (map parse_u16 (split_whitespace v)) with
  | None => Some (Err InvalidValue)
  | Some integers =>
      option_bind (slice_to_4 integers) (fun sl =>
        option_map Ok (padding_of_slice sl))
  end.

(** The loop of [PaddingSpecificationVisitor::visit_seq]: it stops after
    the fifth value. *)
Fixpoint padding_seq_go (seq : list Z) (values : list Z) : result (list Z) DeError :=
  match seq with
  | [] => Ok values
  | v :: rest =>
      match as_u16 v with
      | None => Err InvalidValue
      | Some v =>
          let values := values ++ [v] in
          if Nat.ltb 4 (List.length values) then Ok values
          else padding_seq_go rest values
      end
  end.

(** [PaddingSpecificationVisitor::visit_seq] *)
Definition padding_visit_seq (seq : list Z) : option (result PaddingSpecification DeError) :=
  match padding_seq_go seq [] with
  | Err e => Some (Err e)
  | Ok values =>
      option_bind (slice_to_4 values) (fun sl =>
        option_map Ok (padding_of_slice sl))
  end.

End Serde.

(** ** The padding of a [PaddedTextBox] (src/padded_textbox.rs, lines 9-92) *)
Module Padded.

Inductive PaddingError : Type := mkPaddingError.

Record PaddingSpecification : Type := mkPaddingSpecification {
  left : Z; right : Z; top : Z; bottom : Z   (* u16 each *)
}.

Definition new (top right bottom left : Z) : PaddingSpecification :=
  mkPaddingSpecification left right top bottom.

(** [PaddingSpecification::from_vec]: the CSS shorthand. *)
Definition from_vec (v : list Z) : result PaddingSpecification PaddingError :=
  match v with
  | [s] => Ok (new s s s s)
  | [top_and_bottom; right_and_left] =>
      Ok (new top_and_bottom right_and_left top_and_bottom right_and_left)
  | [top; right_and_left; bottom] => Ok (new top right_and_left bottom right_and_left)
  | [top; right0; bottom; left0] => Ok (new top right0 bottom left0)
  | _ => Err mkPaddingError
  end.

(** [PaddingSpecification::from_str] *)
Definition from_str (s : string) : result PaddingSpecification PaddingError :=
  match Fontsizing.collect_results (map parse_u16 (split_whitespace s)) with
  | None => Err mkPaddingError
  | Some v => from_vec v
  end.

(** [horizontal_padding] and [vertical_padding]: [u16] sums. *)
Definition horizontal_padding (p : PaddingSpecification) : option Z :=
  u16_add (left p) (right p).

Definition vertical_padding (p : PaddingSpecification) : option Z :=
  u16_add (top p) (bottom p).

(** [u16]'s [Display]: decimal digits, no leading zero.  Five digits are
    enough for a [u16]; [fuel] counts them. *)
Definition digit_char (d : Z) : ascii := ascii_of_nat (48 + Z.to_nat d).

Fixpoint u16_digits (fuel : nat) (n : Z) (acc : string) : string :=
  match fuel with
  | O => acc
  | S f =>
      let acc := String (digit_char (n mod 10)) acc in
      if n <? 10 then acc else u16_digits f (n / 10) acc
  end.

Definition u16_to_string (n : Z) : string := u16_digits 5 n EmptyString.

(** [<PaddingSpecification as Display>::fmt]: "{} {} {} {}" of top,
    right, bottom and left. *)
Definition to_string (p : PaddingSpecification) : string :=
  u16_to_string (top p) ++ " " ++ u16_to_string (right p) ++ " " ++
  u16_to_string (bottom p) ++ " " ++ u16_to_string (left p).

End Padded.

(** ** The size of a rendered textbox (src/layout.rs, lines 128-132)

    The width and height [RenderedTextbox::new] gives the image of a
    [TextBox]: the layout manager's best fit, measured with the textbox's
    [output_width] and [output_height].  The drawing that follows (cairo)
    is not modelled.  [None] is a panic. *)
Definition rendered_size (o : Oracle) (tb : TextBox)
  : option (result (Z * Z) SvgTextBoxError) :=
  option_bind (textbox_source tb) (fun src =>
  match LayoutManager_new o src with
  | Err e => Some (Err e)
  | Ok manager =>
      match get_best_fit o manager with
      | Err e => Some (Err e)
      | Ok layout =>
          option_bind (tb_output_width tb (lay_width layout)) (fun width =>
          option_bind (tb_output_height tb (lay_height layout)) (fun height =>
          Some (Ok (width, height))))
      end
  end).

(** ** Markup checks (src/textbox.rs, lines 62-132; src/lib.rs, lines
    420-541) on ASCII text *)
Module Markup.

(** ['\u{0}'], both [NULL_CHAR] and [ACCEL_MARKER] *)
Definition NULL_CHAR : ascii := ascii_of_nat 0.

(** [str::contains] of a [char] *)
Fixpoint contains_char (c : ascii) (s : string) : bool :=
  match s with
  | EmptyString => false
  | String d rest => Ascii.eqb c d || contains_char c rest
  end.

(** [str::trim_start] and [str::trim_end] *)
Fixpoint trim_start (s : string) : string :=
  match s with
  | EmptyString => EmptyString
  | String c rest => if is_whitespace c then trim_start rest else s
  end.

Fixpoint trim_end (s : string) : string :=
  match s with
  | EmptyString => EmptyString
  | String c rest =>
      let rest' := trim_end rest in
      if String.eqb rest' EmptyString && is_whitespace c then EmptyString
      else String c rest'
  end.

(** [str::trim] *)
Definition trim (s : string) : string := trim_end (trim_start s).

Definition starts_with_whitespace (s : string) : bool :=
  match s with
  | EmptyString => false
  | String d _ => is_whitespace d
  end.

(** [AMPERSAND_REGEX.is_match] for the pattern [&(?P<w>\s+)]: an
    ampersand followed by whitespace. *)
Fixpoint is_match (s : string) : bool :=
  match s with
  | EmptyString => false
  | String c rest =>
      (Ascii.eqb c "&"%char && starts_with_whitespace rest) || is_match rest
  end.

(** [AMPERSAND_REGEX.replace_all(s, "&amp;$w")]: each ampersand followed
    by a run of whitespace becomes [&amp;] followed by the same run. *)
Fixpoint replace_all (s : string) : string :=
  match s with
  | EmptyString => EmptyString
  | String c rest =>
      if Ascii.eqb c "&"%char && starts_with_whitespace rest
      then ("&amp;" ++ replace_all rest)%string
      else String c (replace_all rest)
  end.

(** The variants of [SvgTextBoxError] that [PangoCompatibleString::new]
    returns; [Glib] wraps the message of a [glib::Error]. *)
Inductive PCSError : Type :=
| PCSWhitespace
| BadChar (s : string)
| Glib (msg : string).

Section Parse.

(** [pango::parse_markup]: [Ok] or the error's message. *)
Variable parse_markup : string -> result unit string.

(** [PangoCompatibleString::new]; the value is the wrapped string. *)
Definition PangoCompatibleString_new (s : string) : result string PCSError :=
  if all_whitespace s then Err PCSWhitespace
  else if contains_char NULL_CHAR s then Err (BadChar s)
  else
    let trimmed := trim s in
    let trimmed :=
      if contains_char "&"%char trimmed && is_match trimmed
      then replace_all trimmed else trimmed in
    match parse_markup trimmed with
    | Ok _ => Ok trimmed
    | Err e => Err (Glib e)
    end.

(** [MAX_MARKUP_LEN] of [LayoutBuilder] *)
Definition MAX_MARKUP_LEN : Z := 1000.

(** [check_whitespace] *)
Definition check_whitespace (m : string) : result unit Lib.LayoutError :=
  if String.eqb m EmptyString || all_whitespace m then Err Lib.MarkupWhitespace
  else if contains_char NULL_CHAR m || contains_char NULL_CHAR m
  then Err Lib.MarkupNullChar
  else Ok tt.

(** [check_markup]; [markup.len() as i32] does not wrap for markup
    shorter than 2^31 bytes. *)
Definition check_markup (initial_markup : string) : result string Lib.LayoutError :=
  let markup := trim initial_markup in
  if MAX_MARKUP_LEN <? Z.of_nat (String.length markup) then Err Lib.MarkupTooLong
  else
    match check_whitespace markup with
    | Err e => Err e
    | Ok _ =>
        let markup :=
          if contains_char "&"%char markup && is_match markup
          then replace_all markup else markup in
        match parse_markup markup with
        | Ok _ => Ok markup
        | Err msg => Err (Lib.BadMarkup msg)
        end
    end.

End Parse.

End Markup.

(* ================================================================= *)
(** * Proofs *)

(** ** The binary search under a state-independent, monotone comparator *)
Section SearchCorrect.

Context {S T : Type}.
Variable f : T -> S -> Ordering * S.
Variable s : list T.
Variable dflt : T.
(** [Inv] is what the comparator's state keeps along the search. *)
Variable Inv : S -> Prop.
Variable p : T -> bool.
Hypothesis f_spec : forall x st, Inv st ->
  fst (f x st) = (if p x then Less else Greater) /\ Inv (snd (f x st)).
Hypothesis p_mono : forall i j, (i <= j < List.length s)%nat ->
  p (nth j s dflt) = true -> p (nth i s dflt) = true.

Let n := List.length s.

Lemma search_loop_spec : forall fuel base size st,
  Inv st -> (1 <= size)%nat -> (base + size <= n)%nat -> (size <= fuel)%nat ->
  (forall i, (i < base)%nat -> p (nth i s dflt) = true) ->
  (forall i, (base + size <= i < n)%nat -> p (nth i s dflt) = false) ->
  let '(b, st') := search_loop f s dflt fuel base size st in
  Inv st' /\ (b < n)%nat /\
  (forall i, (i < b)%nat -> p (nth i s dflt) = true) /\
  (forall i, (b + 1 <= i < n)%nat -> p (nth i s dflt) = false).
Proof.
  induction fuel as [|fuel IH]; intros base size st Hst H1 Hn Hfuel Hlo Hhi;
    [lia|].
  cbn [search_loop]. destruct (Nat.leb size 1) eqn:Hle.
  - apply Nat.leb_le in Hle. assert (size = 1)%nat by lia. subst size.
    repeat split; auto; lia.
  - apply Nat.leb_gt in Hle.
    assert (Hh1 : (1 <= size / 2)%nat)
      by (apply Nat.div_le_lower_bound; lia).
    assert (Hh2 : (2 * (size / 2) <= size)%nat) by (apply Nat.Div0.mul_div_le).
    set (half := (size / 2)%nat) in *.
    destruct (f_spec (nth (base + half) s dflt) st Hst) as [Hc Hst'].
    destruct (f (nth (base + half) s dflt) st) as [cmp st1] eqn:Ef.
    simpl in Hc, Hst'. subst cmp.
    destruct (p (nth (base + half) s dflt)) eqn:Hp; cbn [ordering_eqb].
    + apply IH; auto; try lia.
      * intros i Hi. apply (p_mono i (base + half)); auto. lia.
      * intros i Hi. apply Hhi. lia.
    + apply IH; auto; try lia.
      intros i Hi. destruct (p (nth i s dflt)) eqn:Hpi; auto.
      assert (p (nth (base + half) s dflt) = true)
        by (apply (p_mono (base + half) i); auto; lia).
      congruence.
Qed.

(** The search reports the partition point of [p] along [s]. *)
Lemma binary_search_by_partition : forall st, Inv st ->
  exists k st',
    binary_search_by f s dflt st = (Err k, st') /\ Inv st' /\ (k <= n)%nat /\
    (forall i, (i < k)%nat -> p (nth i s dflt) = true) /\
    (forall i, (k <= i < n)%nat -> p (nth i s dflt) = false).
Proof.
  intros st Hst. unfold binary_search_by.
  fold n. destruct (Nat.eqb n 0) eqn:Hn0.
  - apply Nat.eqb_eq in Hn0. exists 0%nat, st.
    repeat split; auto; intros; lia.
  - apply Nat.eqb_neq in Hn0.
    pose proof (search_loop_spec n 0 n st Hst) as Hl.
    destruct (search_loop f s dflt n 0 n st) as [b st1].
    destruct Hl as (Hst1 & Hb & Hlo & Hhi); auto; try lia.
    destruct (f_spec (nth b s dflt) st1 Hst1) as [Hc Hst2].
    destruct (f (nth b s dflt) st1) as [cmp st2]. simpl in Hc, Hst2. subst cmp.
    destruct (p (nth b s dflt)) eqn:Hp; simpl.
    + exists (b + 1)%nat, st2.
      split; [reflexivity|]. split; [auto|]. split; [lia|].
      split; intros i Hi.
      * destruct (Nat.eq_dec i b); [subst; auto | apply Hlo; lia].
      * apply Hhi; lia.
    + exists (b + 0)%nat, st2.
      split; [reflexivity|]. split; [auto|]. split; [lia|].
      split; intros i Hi.
      * apply Hlo; lia.
      * destruct (Nat.eq_dec i b); [subst; auto | apply Hhi; lia].
Qed.

End SearchCorrect.

(** ** The font-size search on a layout *)

Lemma strongly_sorted_nth_le : forall (v : list Z) i j,
  StronglySorted Z.lt v -> (i <= j < List.length v)%nat ->
  nth i v 0 <= nth j v 0.
Proof.
  induction v as [|x t IH]; intros i j Hs Hij; simpl in Hij; [lia|].
  apply StronglySorted_inv in Hs as [Hs Hall].
  destruct i as [|i], j as [|j]; simpl; try lia.
  - rewrite Forall_forall in Hall.
    assert (In (nth j t 0) t) by (apply nth_In; lia).
    specialize (Hall _ H). lia.
  - apply IH; auto; lia.
Qed.

Lemma set_font_size_twice : forall l a b,
  set_font_size (set_font_size l a) b = set_font_size l b.
Proof. reflexivity. Qed.

(** The linear scan keeps the last element of the fitting prefix. *)
Lemma linear_scan_fold_partition : forall (p : Z -> bool) v acc k,
  (k <= List.length v)%nat ->
  (forall i, (i < k)%nat -> p (nth i v 0) = true) ->
  (forall i, (k <= i < List.length v)%nat -> p (nth i v 0) = false) ->
  fold_left (fun acc x => if p x then Some x else acc) v acc =
  (if Nat.eqb k 0 then acc else Some (nth (k - 1) v 0)).
Proof.
  intros p v. induction v as [|x t IH]; intros acc k Hk Hlo Hhi.
  - simpl in Hk. assert (k = 0)%nat by lia. subst. reflexivity.
  - simpl. destruct k as [|k].
    + assert (Hx : p x = false) by (apply (Hhi 0%nat); simpl; lia).
      rewrite Hx. apply (IH acc 0%nat); simpl in *; try lia.
      intros i Hi. apply (Hhi (Datatypes.S i)). simpl. lia.
    + assert (Hx : p x = true) by (apply (Hlo 0%nat); lia).
      rewrite Hx. simpl in Hk. rewrite (IH (Some x) k); try lia.
      * destruct k; simpl; [reflexivity|]. rewrite Nat.sub_0_r. reflexivity.
      * intros i Hi. apply (Hlo (Datatypes.S i)). lia.
      * intros i Hi. apply (Hhi (Datatypes.S i)). simpl. lia.
Qed.

Section GrowCorrect.

Variable o : Oracle.
Variable v : list Z.
Variable l : Layout.

(** fit at candidate [x] in the box of [l] *)
Let fits_at (x : Z) : bool := fits o (set_font_size l x).

Hypothesis v_sorted : Sorted Z.lt v.
Hypothesis fits_mono : forall a b, In a v -> In b v -> a <= b ->
  fits_at b = true -> fits_at a = true.

Lemma grow_partition : exists k st',
  (k <= List.length v)%nat /\
  (forall i, (i < k)%nat -> fits_at (nth i v 0) = true) /\
  (forall i, (k <= i < List.length v)%nat -> fits_at (nth i v 0) = false) /\
  grow_to_maximum_font_size o v l =
    (if Nat.eqb k 0 then (Err CouldNotFit, st')
     else (Ok tt, set_font_size l (nth (k - 1) v 0))).
Proof.
  assert (Hss : StronglySorted Z.lt v).
  { apply Sorted_StronglySorted; auto. intros a b c; lia. }
  set (Inv := fun st : Layout => forall x, set_font_size st x = set_font_size l x).
  destruct (binary_search_by_partition (change_size_and_check_fits o) v 0
              Inv fits_at) with (st := l)
    as (k & st' & Hbs & Hinv & Hk & Hlo & Hhi).
  - intros x st Hst. unfold change_size_and_check_fits. simpl.
    unfold fits_at. rewrite (Hst x). split; [reflexivity|].
    intros y. rewrite set_font_size_twice. first [reflexivity | apply Hst].
  - intros i j Hij Hj. apply (fits_mono (nth i v 0) (nth j v 0)).
    + apply nth_In; lia.
    + apply nth_In; lia.
    + apply strongly_sorted_nth_le; auto.
    + exact Hj.
  - intros x; reflexivity.
  - exists k, st'. split; [exact Hk|]. split; [exact Hlo|]. split; [exact Hhi|].
    unfold grow_to_maximum_font_size. rewrite Hbs. simpl.
    destruct (Nat.eqb k 0) eqn:Hk0; [reflexivity|].
    apply Nat.eqb_neq in Hk0.
    destruct (nth_error v (k - 1)) eqn:Hn.
    + rewrite (nth_error_nth v (k - 1) 0 Hn) in *. rewrite (Hinv z).
      reflexivity.
    + apply nth_error_None in Hn. lia.
Qed.

End GrowCorrect.

(** C1: for an ascending, duplicate-free candidate list and a fit
    predicate monotone in the font size over the candidates,
    [grow_to_maximum_font_size] agrees with the linear scan for the
    largest fitting candidate: it succeeds and leaves the layout at that
    size when the scan finds one, and fails with [CouldNotFit] otherwise;
    it fails with [CouldNotFit] exactly when the list is empty or its
    smallest candidate does not fit. *)
Theorem grow_to_maximum_font_size_refines_linear_scan :
  forall (o : Oracle) (v : list Z) (l : Layout),
  Sorted Z.lt v ->
  (forall a b, In a v -> In b v -> a <= b ->
     fits o (set_font_size l b) = true -> fits o (set_font_size l a) = true) ->
  let fits_at := fun x => fits o (set_font_size l x) in
  (match linear_scan_max fits_at v with
   | Some x => grow_to_maximum_font_size o v l = (Ok tt, set_font_size l x)
   | None => fst (grow_to_maximum_font_size o v l) = Err CouldNotFit
   end) /\
  (fst (grow_to_maximum_font_size o v l) = Err CouldNotFit <->
   match v with [] => True | x :: _ => fits_at x = false end).
Proof.
  intros o v l Hs Hm fits_at.
  destruct (grow_partition o v l Hs Hm) as (k & st' & Hk & Hlo & Hhi & Hg).
  unfold linear_scan_max.
  rewrite (linear_scan_fold_partition fits_at v None k Hk Hlo Hhi).
  rewrite Hg. split.
  - destruct (Nat.eqb k 0); reflexivity.
  - destruct (Nat.eqb k 0) eqn:Hk0; simpl.
    + apply Nat.eqb_eq in Hk0. subst k. split; intros _; [|reflexivity].
      destruct v as [|x t]; [exact I|].
      apply (Hhi 0%nat). simpl. lia.
    + apply Nat.eqb_neq in Hk0. split; intros H; [discriminate|].
      destruct v as [|x t]; [simpl in Hk; lia|].
      pose proof (Hlo 0%nat) as H0. simpl in H0. unfold fits_at in H. rewrite H0 in H; [discriminate | lia].
Qed.

(** C6: when the search succeeds, the layout is left at the chosen
    (largest fitting) candidate, which fits, and not at the size probed
    last. *)
Theorem grow_to_maximum_font_size_leaves_chosen_size :
  forall (o : Oracle) (v : list Z) (l l' : Layout),
  Sorted Z.lt v ->
  (forall a b, In a v -> In b v -> a <= b ->
     fits o (set_font_size l b) = true -> fits o (set_font_size l a) = true) ->
  grow_to_maximum_font_size o v l = (Ok tt, l') ->
  exists x, linear_scan_max (fun x => fits o (set_font_size l x)) v = Some x /\
    font_size l' = x /\ l' = set_font_size l x /\ fits o l' = true.
Proof.
  intros o v l l' Hs Hm Hg.
  destruct (grow_partition o v l Hs Hm) as (k & st' & Hk & Hlo & Hhi & Hg').
  rewrite Hg in Hg'. destruct (Nat.eqb k 0) eqn:Hk0; [discriminate|].
  apply Nat.eqb_neq in Hk0. injection Hg' as Hl'.
  exists (nth (k - 1) v 0). unfold linear_scan_max.
  rewrite (linear_scan_fold_partition _ v None k Hk Hlo Hhi).
  replace (Nat.eqb k 0) with false by (symmetry; apply Nat.eqb_neq; lia).
  subst l'. repeat split.
  apply Hlo. lia.
Qed.

(** ** The fit predicate *)

(** C2 (amended): [fits] holds exactly when the layout is not ellipsized
    and the byte index of the character nearest the box's bottom-right
    corner is the text's byte length minus one; the ink extents are not
    consulted (replacing them leaves [fits] unchanged). *)
Theorem fits_two_signals : forall (o : Oracle) (l : Layout),
  (fits o l = true <->
   is_ellipsized o l = false /\
   (let '(_, idx, _) := xy_to_index o l (lay_width l) (lay_height l) in
    idx = Z.of_nat (String.length (lay_text l)) - 1)) /\
  (forall ink : Layout -> Rectangle,
   fits (mkOracle (is_ellipsized o) ink (xy_to_index o) (markup_text o)) l =
   fits o l).
Proof.
  intros o l. unfold fits. simpl.
  destruct (xy_to_index o l (lay_width l) (lay_height l)) as [[ins idx] tr].
  split; [|reflexivity].
  destruct (is_ellipsized o l); simpl; split.
  - discriminate.
  - intros [H _]; discriminate.
  - intros H. rewrite negb_involutive in H.
    split; [reflexivity|]. apply Z.eqb_eq. exact H.
  - intros [_ H]. apply Z.eqb_eq in H. rewrite H. reflexivity.
Qed.

(** C2 counterexample: a layout whose ink extents start left of the box
    (x = -5) but which is not ellipsized and keeps its last character:
    [fits] accepts it, the three-signal judgement rejects it. *)
Lemma fits_ignores_ink_extents :
  let o := threshold_oracle (fun _ _ => 100) (mkRect (-5) 0 10 10) in
  let l := mkLayout 50 50 10 "ab" in
  fits o l = true /\ fits_three_signals o l = false.
Proof. split; reflexivity. Qed.

(** ** Generic facts on the stateful binary search *)
Section SearchGeneric.

Context {S T : Type}.
Variable f : T -> S -> Ordering * S.
Variable s : list T.
Variable dflt : T.

Lemma search_loop_inv : forall (Inv : S -> Prop),
  (forall x st, Inv st -> Inv (snd (f x st))) ->
  forall fuel base size st, Inv st -> Inv (snd (search_loop f s dflt fuel base size st)).
Proof.
  intros Inv Hf. induction fuel as [|fuel IH]; intros base size st Hst; [exact Hst|].
  cbn [search_loop]. destruct (Nat.leb size 1); [exact Hst|].
  specialize (Hf (nth (base + size / 2) s dflt) st Hst).
  destruct (f (nth (base + size / 2) s dflt) st) as [cmp st1]. apply IH. exact Hf.
Qed.

Lemma binary_search_by_inv : forall (Inv : S -> Prop),
  (forall x st, Inv st -> Inv (snd (f x st))) ->
  forall st, Inv st -> Inv (snd (binary_search_by f s dflt st)).
Proof.
  intros Inv Hf st Hst. unfold binary_search_by.
  destruct (Nat.eqb (List.length s) 0); [exact Hst|].
  pose proof (search_loop_inv Inv Hf (List.length s) 0 (List.length s) st Hst) as H1.
  destruct (search_loop f s dflt (List.length s) 0 (List.length s) st) as [b st1].
  specialize (Hf (nth b s dflt) st1 H1).
  destruct (f (nth b s dflt) st1) as [cmp st2].
  destruct (ordering_eqb cmp Equal); exact Hf.
Qed.

Lemma search_loop_sim : forall (R : S -> S -> Prop),
  (forall x st st', R st st' ->
     fst (f x st) = fst (f x st') /\ R (snd (f x st)) (snd (f x st'))) ->
  forall fuel base size st st', R st st' ->
  fst (search_loop f s dflt fuel base size st) =
  fst (search_loop f s dflt fuel base size st') /\
  R (snd (search_loop f s dflt fuel base size st))
    (snd (search_loop f s dflt fuel base size st')).
Proof.
  intros R Hf. induction fuel as [|fuel IH]; intros base size st st' Hst;
    [split; [reflexivity | exact Hst]|].
  cbn [search_loop]. destruct (Nat.leb size 1); [split; [reflexivity | exact Hst]|].
  destruct (Hf (nth (base + size / 2) s dflt) st st' Hst) as [Hc Hr].
  destruct (f (nth (base + size / 2) s dflt) st) as [c1 s1].
  destruct (f (nth (base + size / 2) s dflt) st') as [c2 s2].
  simpl in Hc, Hr. subst c2. apply IH. exact Hr.
Qed.

Lemma binary_search_by_sim : forall (R : S -> S -> Prop),
  (forall x st st', R st st' ->
     fst (f x st) = fst (f x st') /\ R (snd (f x st)) (snd (f x st'))) ->
  forall st st', R st st' ->
  fst (binary_search_by f s dflt st) = fst (binary_search_by f s dflt st') /\
  R (snd (binary_search_by f s dflt st)) (snd (binary_search_by f s dflt st')).
Proof.
  intros R Hf st st' Hst. unfold binary_search_by.
  destruct (Nat.eqb (List.length s) 0); [split; [reflexivity | exact Hst]|].
  destruct (search_loop_sim R Hf (List.length s) 0 (List.length s) st st' Hst) as [Hb Hr].
  destruct (search_loop f s dflt (List.length s) 0 (List.length s) st) as [b1 t1].
  destruct (search_loop f s dflt (List.length s) 0 (List.length s) st') as [b2 t2].
  simpl in Hb, Hr. subst b2.
  destruct (Hf (nth b1 s dflt) t1 t2 Hr) as [Hc Hr2].
  destruct (f (nth b1 s dflt) t1) as [c1 u1].
  destruct (f (nth b1 s dflt) t2) as [c2 u2].
  simpl in Hc, Hr2. subst c2.
  destruct (ordering_eqb c1 Equal); split; auto.
Qed.

Lemma search_loop_bound : forall fuel base size st,
  (1 <= size)%nat -> (base + size <= List.length s)%nat -> (size <= fuel)%nat ->
  (fst (search_loop f s dflt fuel base size st) < List.length s)%nat.
Proof.
  induction fuel as [|fuel IH]; intros base size st H1 Hn Hfuel; [lia|].
  cbn [search_loop]. destruct (Nat.leb size 1) eqn:Hle; [simpl; lia|].
  apply Nat.leb_gt in Hle.
  assert (Hh1 : (1 <= size / 2)%nat) by (apply Nat.div_le_lower_bound; lia).
  assert (Hh2 : (2 * (size / 2) <= size)%nat) by (apply Nat.Div0.mul_div_le).
  destruct (f (nth (base + size / 2) s dflt) st) as [cmp st1].
  destruct (ordering_eqb cmp Greater); apply IH; lia.
Qed.

(** A comparator that never answers [Equal] makes the search report an
    insertion point within the slice. *)
Lemma binary_search_by_err_bound :
  (forall x st, fst (f x st) <> Equal) ->
  forall st, exists k st', binary_search_by f s dflt st = (Err k, st') /\
                           (k <= List.length s)%nat.
Proof.
  intros Hf st. unfold binary_search_by.
  destruct (Nat.eqb (List.length s) 0) eqn:H0.
  - exists 0%nat, st. split; [reflexivity | lia].
  - apply Nat.eqb_neq in H0.
    pose proof (search_loop_bound (List.length s) 0 (List.length s) st) as Hb.
    destruct (search_loop f s dflt (List.length s) 0 (List.length s) st) as [b st1].
    simpl in Hb. specialize (Hb ltac:(lia) ltac:(lia) ltac:(lia)).
    specialize (Hf (nth b s dflt) st1).
    destruct (f (nth b s dflt) st1) as [cmp st2]. simpl in Hf.
    destruct cmp; simpl; [| contradiction |].
    + exists (b + 1)%nat, st2. split; [reflexivity | lia].
    + exists (b + 0)%nat, st2. split; [reflexivity | lia].
Qed.

End SearchGeneric.

(** ** The font search depends on the box and the text only *)

Definition same_box (l l' : Layout) : Prop :=
  forall x, set_font_size l x = set_font_size l' x.

Lemma same_box_text : forall l l', same_box l l' -> lay_text l = lay_text l'.
Proof. intros l l' H. specialize (H 0). apply (f_equal lay_text) in H. exact H. Qed.

Lemma change_size_never_equal : forall o x l,
  fst (change_size_and_check_fits o x l) <> Equal.
Proof. intros o x l. unfold change_size_and_check_fits. simpl. destruct (fits _ _); discriminate. Qed.

Lemma grow_outcome : forall o fs l,
  fst (grow_to_maximum_font_size o fs l) = Ok tt \/
  fst (grow_to_maximum_font_size o fs l) = Err CouldNotFit.
Proof.
  intros o fs l. unfold grow_to_maximum_font_size.
  destruct (binary_search_by_err_bound (change_size_and_check_fits o) fs 0
              (change_size_never_equal o) l) as (k & st' & Hbs & Hk).
  rewrite Hbs. simpl. destruct (Nat.eqb k 0) eqn:Hk0; [right; reflexivity|].
  apply Nat.eqb_neq in Hk0.
  destruct (nth_error fs (k - 1)) eqn:Hn; [left; reflexivity|].
  apply nth_error_None in Hn. lia.
Qed.

Lemma grow_same_box : forall o fs l l', same_box l l' ->
  fst (grow_to_maximum_font_size o fs l) = fst (grow_to_maximum_font_size o fs l') /\
  (fst (grow_to_maximum_font_size o fs l) = Ok tt ->
   snd (grow_to_maximum_font_size o fs l) = snd (grow_to_maximum_font_size o fs l')).
Proof.
  intros o fs l l' H. unfold grow_to_maximum_font_size.
  destruct (binary_search_by_sim (change_size_and_check_fits o) fs 0 same_box)
    with (st := l) (st' := l') as [Hr Hs]; auto.
  { intros x st st' Hst. unfold change_size_and_check_fits. simpl.
    rewrite (Hst x). split; [reflexivity|]. intros y. reflexivity. }
  destruct (binary_search_by (change_size_and_check_fits o) fs 0 l) as [r1 t1].
  destruct (binary_search_by (change_size_and_check_fits o) fs 0 l') as [r2 t2].
  simpl in Hr, Hs. subst r2.
  destruct (result_err r1) as [index|]; [|split; [reflexivity | discriminate]].
  destruct (Nat.eqb index 0); [split; [reflexivity | discriminate]|].
  destruct (nth_error fs (index - 1)) as [r|]; [|split; [reflexivity | discriminate]].
  split; [reflexivity|]. intros _. simpl. apply Hs.
Qed.

Lemma grow_keeps_box : forall o fs l,
  same_box l (snd (grow_to_maximum_font_size o fs l)).
Proof.
  intros o fs l. unfold grow_to_maximum_font_size.
  pose proof (binary_search_by_inv (change_size_and_check_fits o) fs 0
                (same_box l)) as Hi.
  specialize (Hi ltac:(intros x st Hst y; simpl; apply Hst) l ltac:(intros y; reflexivity)).
  destruct (binary_search_by (change_size_and_check_fits o) fs 0 l) as [r1 t1].
  simpl in Hi.
  destruct (result_err r1) as [index|]; [|exact Hi].
  destruct (Nat.eqb index 0); [exact Hi|].
  destruct (nth_error fs (index - 1)) as [r|]; [|exact Hi].
  intros y. simpl. apply Hi.
Qed.

Lemma set_box_same_box : forall l l' w h, lay_text l = lay_text l' ->
  same_box (set_height (set_width l w) h) (set_height (set_width l' w) h).
Proof. intros l l' w h Ht x. unfold set_font_size. simpl. rewrite Ht. reflexivity. Qed.

(** [get_best_fit]'s loop accepts the first dimension at which the font
    search succeeds; the layout it carries between candidates matters only
    through its text. *)
Lemma best_fit_loop_first : forall o fs dims l l0,
  lay_text l = lay_text l0 ->
  best_fit_loop o fs dims l =
  match first_fitting_dimension o fs l0 dims with
  | Some (w, h) => Ok (snd (grow_to_maximum_font_size o fs (set_height (set_width l0 w) h)))
  | None => Err CouldNotFit
  end.
Proof.
  intros o fs dims. induction dims as [|[w h] rest IH]; intros l l0 Ht; [reflexivity|].
  simpl.
  pose proof (set_box_same_box l l0 w h Ht) as Hb.
  destruct (grow_same_box o fs _ _ Hb) as [Hf Hs].
  pose proof (grow_keeps_box o fs (set_height (set_width l w) h)) as Hk.
  destruct (grow_outcome o fs (set_height (set_width l w) h)) as [Hok | Hno].
  - specialize (Hs Hok). rewrite <- Hf, Hok.
    destruct (grow_to_maximum_font_size o fs (set_height (set_width l w) h)) as [r l2].
    simpl in Hok, Hs. subst r. rewrite Hs. reflexivity.
  - rewrite <- Hf, Hno.
    destruct (grow_to_maximum_font_size o fs (set_height (set_width l w) h)) as [r l2].
    simpl in Hno, Hk. subst r. apply IH.
    apply same_box_text in Hk. simpl in Hk. rewrite <- Hk. exact Ht.
Qed.

(** ** The dimension search order *)

(** C3 (amended): the layout manager probes the (width, height) pairs in
    width-major order -- for each width in the source's order, each height
    in the source's order -- and [get_best_fit] accepts the first pair at
    which the font search succeeds; no later pair is tried, and
    [CouldNotFit] is returned when none succeeds. *)
Theorem get_best_fit_width_major_first_fit :
  forall (o : Oracle) (src : LayoutSource) (m : LayoutManager),
  LayoutManager_new o src = Ok m ->
  dimensions m = cartesian (possible_widths src) (possible_heights src) /\
  get_best_fit o m =
  match first_fitting_dimension o (font_sizes m) (base_layout m) (dimensions m) with
  | Some (w, h) =>
      Ok (snd (grow_to_maximum_font_size o (font_sizes m)
                 (set_height (set_width (base_layout m) w) h)))
  | None => Err CouldNotFit
  end.
Proof.
  intros o src m Hnew. split.
  - unfold LayoutManager_new in Hnew.
    destruct (btreeset_collect (possible_font_sizes src)); [discriminate|].
    destruct (possible_heights src); [discriminate|].
    destruct (possible_widths src); [discriminate|].
    injection Hnew as <-. reflexivity.
  - unfold get_best_fit. apply best_fit_loop_first. reflexivity.
Qed.

(** C3 counterexample: widths {1, 2}, heights {1, 2}, and a text that
    fits at font size 10 exactly when the height is at least 2.  The
    resolver returns the box 1 x 2, a pair the order "widths at the
    minimum height, then heights at the maximum width" never visits; that
    order first succeeds at 2 x 2. *)
Lemma get_best_fit_not_min_height_first :
  let o := threshold_oracle (fun _ h => if 2 <=? h then 100 else 0)
                            (mkRect 0 0 0 0) in
  let src := mkLayoutSource [10] [1; 2] [1; 2] 10 "Hello World" in
  exists m, LayoutManager_new o src = Ok m /\
    dimensions m = [(1, 1); (1, 2); (2, 1); (2, 2)] /\
    spec_flex_flex_order [1; 2] [1; 2] = [(1, 1); (2, 1); (2, 1); (2, 2)] /\
    first_fitting_dimension o (font_sizes m) (base_layout m)
      (spec_flex_flex_order [1; 2] [1; 2]) = Some (2, 2) /\
    exists l, get_best_fit o m = Ok l /\ (lay_width l, lay_height l) = (1, 2).
Proof.
  simpl. eexists. split; [reflexivity|].
  split; [reflexivity|]. split; [reflexivity|]. split; [reflexivity|].
  eexists. split; reflexivity.
Qed.

(** ** The font-size candidates of the layout manager *)

Lemma btree_insert_in : forall x s y, In y (btree_insert x s) <-> x = y \/ In y s.
Proof.
  intros x s y. induction s as [|z t IH]; simpl.
  - tauto.
  - destruct (x <? z) eqn:H1; [simpl; tauto|].
    destruct (x =? z) eqn:H2.
    + apply Z.eqb_eq in H2. subst z. simpl. tauto.
    + simpl. rewrite IH. tauto.
Qed.

Lemma btree_insert_hdrel : forall x y s,
  y < x -> HdRel Z.lt y s -> HdRel Z.lt y (btree_insert x s).
Proof.
  intros x y s Hyx Hs. destruct s as [|z t]; simpl.
  - constructor. exact Hyx.
  - inversion Hs; subst.
    destruct (x <? z); [constructor; exact Hyx|].
    destruct (x =? z); constructor; assumption.
Qed.

Lemma btree_insert_sorted : forall x s, Sorted Z.lt s -> Sorted Z.lt (btree_insert x s).
Proof.
  intros x s. induction s as [|z t IH]; intros Hs; simpl.
  - repeat constructor.
  - apply Sorted_inv in Hs as [Ht Hz].
    destruct (x <? z) eqn:H1.
    + apply Z.ltb_lt in H1. constructor; [constructor; assumption|].
      constructor. exact H1.
    + destruct (x =? z) eqn:H2; [constructor; assumption|].
      apply Z.ltb_ge in H1. apply Z.eqb_neq in H2.
      constructor; [apply IH; exact Ht|].
      apply btree_insert_hdrel; [lia | exact Hz].
Qed.

Lemma btreeset_collect_spec : forall l,
  Sorted Z.lt (btreeset_collect l) /\
  (forall x, In x (btreeset_collect l) <-> In x l).
Proof.
  intros l. unfold btreeset_collect.
  assert (G : forall acc, Sorted Z.lt acc ->
    Sorted Z.lt (fold_left (fun s x => btree_insert x s) l acc) /\
    (forall x, In x (fold_left (fun s x => btree_insert x s) l acc) <->
               In x l \/ In x acc)).
  { induction l as [|y t IH]; intros acc Hacc; simpl.
    - split; [exact Hacc|]. tauto.
    - destruct (IH (btree_insert y acc)) as [H1 H2];
        [apply btree_insert_sorted; exact Hacc|].
      split; [exact H1|]. intros x. rewrite H2, btree_insert_in. tauto. }
  destruct (G [] (Sorted_nil _)) as [H1 H2]. split; [exact H1|].
  intros x. rewrite H2. simpl. tauto.
Qed.

(** C9: whatever order and duplicates the source's font sizes come in,
    the manager's candidate list is strictly ascending and holds exactly
    the source's sizes. *)
Theorem LayoutManager_new_font_sizes_strictly_ascending :
  forall (o : Oracle) (src : LayoutSource) (m : LayoutManager),
  LayoutManager_new o src = Ok m ->
  StronglySorted Z.lt (font_sizes m) /\
  (forall x, In x (font_sizes m) <-> In x (possible_font_sizes src)).
Proof.
  intros o src m Hnew.
  destruct (btreeset_collect_spec (possible_font_sizes src)) as [Hs Hin].
  unfold LayoutManager_new in Hnew.
  destruct (btreeset_collect (possible_font_sizes src)) as [|z t] eqn:E;
    [discriminate|].
  destruct (possible_heights src); [discriminate|].
  destruct (possible_widths src); [discriminate|].
  injection Hnew as <-. simpl. split.
  - apply Sorted_StronglySorted; [intros a b c; lia | exact Hs].
  - exact Hin.
Qed.

(** ** Padding and the candidate dimensions of a textbox *)

Lemma btreeset_collect_nonempty : forall l, l <> [] -> btreeset_collect l <> [].
Proof.
  intros l Hl E. destruct l as [|x t]; [contradiction|].
  destruct (btreeset_collect_spec (x :: t)) as [_ Hin].
  specialize (Hin x). rewrite E in Hin. simpl in Hin. tauto.
Qed.

(** The layout manager rejects a source only for an empty candidate list;
    it never inspects the candidates' values. *)
Lemma LayoutManager_new_accepts_nonempty : forall o src,
  possible_font_sizes src <> [] -> possible_heights src <> [] ->
  possible_widths src <> [] ->
  exists m, LayoutManager_new o src = Ok m /\
    dimensions m = cartesian (possible_widths src) (possible_heights src).
Proof.
  intros o src Hf Hh Hw. unfold LayoutManager_new.
  pose proof (btreeset_collect_nonempty _ Hf) as Hc.
  destruct (btreeset_collect (possible_font_sizes src)); [contradiction|].
  destruct (possible_heights src); [contradiction|].
  destruct (possible_widths src); [contradiction|].
  eexists. split; reflexivity.
Qed.

(** C4 (amended): the width candidates of a textbox are the values of its
    width spec, scaled, minus the scaled total horizontal padding, in the
    spec's order (when [left + right] does not overflow [u16]); no
    candidate is checked for positivity, and the layout manager accepts
    any non-empty candidate lists, so a candidate that is not positive is
    searched rather than rejected. *)
Theorem textbox_width_candidates_unchecked :
  forall (tb : TextBox) (vs : list Z),
  unit_iter (tb_width tb) = Some vs ->
  pad_left (tb_padding tb) + pad_right (tb_padding tb) <= 65535 ->
  tb_possible_widths tb =
    Some (map (fun n => n * SCALE -
                        (pad_left (tb_padding tb) + pad_right (tb_padding tb)) * SCALE) vs) /\
  (forall o src, textbox_source tb = Some src ->
     possible_font_sizes src <> [] -> possible_heights src <> [] ->
     possible_widths src <> [] ->
     exists m, LayoutManager_new o src = Ok m /\
       dimensions m = cartesian (possible_widths src) (possible_heights src)).
Proof.
  intros tb vs Hvs Hpad. split.
  - unfold tb_possible_widths. rewrite Hvs. simpl.
    unfold total_horizontal_padding, u16_add.
    replace (pad_left (tb_padding tb) + pad_right (tb_padding tb) <=? 65535)
      with true by (symmetry; apply Z.leb_le; exact Hpad).
    destruct vs; reflexivity.
  - intros o src _ Hf Hh Hw. apply LayoutManager_new_accepts_nonempty; assumption.
Qed.

(** C4 counterexample: width spec {10}, left and right padding 10 each.
    The width candidate becomes -10240 and the layout manager accepts it
    without an error. *)
Lemma textbox_nonpositive_width_not_rejected :
  let tb := mkTextBox "Hello World" (AsSet [10]) (AsSet [10]) 0 (AsSet [10])
                      (mkPadding 0 0 10 10) in
  exists src m,
    textbox_source tb = Some src /\
    possible_widths src = [-10240] /\
    LayoutManager_new (threshold_oracle (fun _ _ => 0) (mkRect 0 0 0 0)) src = Ok m /\
    dimensions m = [(-10240, 10240)].
Proof. simpl. do 2 eexists. split; [reflexivity|]. split; [reflexivity|]. split; reflexivity. Qed.

(** The height candidates are computed from the width spec: width {100}
    and height {200} give the single height candidate 100 * SCALE. *)
Lemma textbox_heights_follow_width_spec :
  let tb := mkTextBox "Hello World" (AsSet [100]) (AsSet [200]) 0 (AsSet [10])
                      (mkPadding 0 0 0 0) in
  tb_possible_heights tb = Some [102400] /\ unit_iter (tb_height tb) = Some [200].
Proof. split; reflexivity. Qed.

(** ** Ranges, sorting and whitespace splitting *)

Lemma range_seq_sorted : forall a start n,
  Sorted Z.le (map (fun k => a + Z.of_nat k) (seq start n)).
Proof.
  intros a start n. revert start. induction n as [|n IH]; intros start; simpl.
  - constructor.
  - constructor; [apply IH|]. destruct n; simpl; constructor; lia.
Qed.

Lemma range_inclusive_sorted : forall a b, Sorted Z.le (range_inclusive a b).
Proof.
  intros a b. unfold range_inclusive. destruct (a <=? b); [apply range_seq_sorted | constructor].
Qed.

Lemma range_inclusive_nodup : forall a b, NoDup (range_inclusive a b).
Proof.
  intros a b. unfold range_inclusive. destruct (a <=? b); [|constructor].
  generalize 0%nat as start. generalize (S (Z.to_nat (b - a))) as n.
  induction n as [|n IH]; intros start; simpl; constructor; [|apply IH].
  rewrite in_map_iff. intros (k & Hk & Hin). apply in_seq in Hin. lia.
Qed.

Lemma range_inclusive_length : forall a b, a <= b ->
  Z.of_nat (List.length (range_inclusive a b)) = b - a + 1.
Proof.
  intros a b H. unfold range_inclusive.
  replace (a <=? b) with true by (symmetry; apply Z.leb_le; exact H).
  rewrite length_map, length_seq. lia.
Qed.

Lemma range_inclusive_in : forall a b x, In x (range_inclusive a b) <-> a <= x <= b.
Proof.
  intros a b x. unfold range_inclusive. destruct (a <=? b) eqn:H.
  - apply Z.leb_le in H. rewrite in_map_iff. split.
    + intros (k & <- & Hk). apply in_seq in Hk. lia.
    + intros Hx. exists (Z.to_nat (x - a)). split; [lia|]. apply in_seq. lia.
  - apply Z.leb_gt in H. simpl. lia.
Qed.

Lemma sort_unstable_sorted_id : forall l, Sorted Z.le l -> sort_unstable l = l.
Proof.
  induction l as [|x t IH]; intros Hs; [reflexivity|].
  apply Sorted_inv in Hs as [Ht Hx]. simpl. rewrite (IH Ht).
  destruct t as [|y t']; [reflexivity|]. simpl.
  inversion Hx; subst. replace (x <=? y) with true by (symmetry; apply Z.leb_le; assumption).
  reflexivity.
Qed.

Lemma string_append_empty_r : forall s, (s ++ "")%string = s.
Proof. induction s as [|c s IH]; simpl; [reflexivity | rewrite IH; reflexivity]. Qed.

Lemma split_ws_go_token : forall t r cur, no_whitespace t = true ->
  split_ws_go (t ++ r) cur = split_ws_go r (rev (list_ascii_of_string t) ++ cur).
Proof.
  induction t as [|c t IH]; intros r cur Ht; [reflexivity|].
  simpl in Ht |- *. apply andb_true_iff in Ht as [Hc Ht].
  apply negb_true_iff in Hc. rewrite Hc. rewrite (IH r (c :: cur) Ht).
  rewrite <- app_assoc. reflexivity.
Qed.

Lemma split_whitespace_two_tokens : forall ta tb,
  ta <> EmptyString -> tb <> EmptyString ->
  no_whitespace ta = true -> no_whitespace tb = true ->
  split_whitespace (ta ++ " " ++ tb) = [ta; tb].
Proof.
  intros ta tb Ha Hb Hwa Hwb. unfold split_whitespace.
  rewrite (split_ws_go_token ta _ [] Hwa). rewrite app_nil_r.
  simpl.
  destruct (rev (list_ascii_of_string ta)) as [|c l] eqn:Er.
  - destruct ta; [contradiction|]. simpl in Er.
    destruct (rev (list_ascii_of_string ta)); discriminate.
  - rewrite <- Er, rev_involutive, string_of_list_ascii_of_string.
    rewrite <- (string_append_empty_r tb) at 1.
    rewrite (split_ws_go_token tb "" [] Hwb). rewrite app_nil_r. simpl.
    destruct (rev (list_ascii_of_string tb)) as [|d m] eqn:Er2.
    + destruct tb; [contradiction|]. simpl in Er2.
      destruct (rev (list_ascii_of_string tb)); discriminate.
    + rewrite <- Er2, rev_involutive, string_of_list_ascii_of_string. reflexivity.
Qed.

(** ** Two-token parsing *)

Lemma hashset_collect_nodup_id : forall l, NoDup l -> hashset_collect l = l.
Proof. intros l H. unfold hashset_collect. apply nodup_fixed_point. exact H. Qed.

(** C5: for two whitespace-free tokens denoting [a] and [b], the string
    "a b" parses, as a font sizing (tokens read as [u16]), to the
    ascending range [a..=b] (of [b - a + 1] values) when [b > a] and to
    the two values [b, a] when [b < a]; as a dimension set
    ([ints_from_str], tokens read as [i32], positive values) it gives the
    set of [a..=b] and the set {a, b} respectively. *)
Theorem two_token_disambiguation :
  forall (ta tb : string) (a b : Z),
  ta <> EmptyString -> tb <> EmptyString ->
  no_whitespace ta = true -> no_whitespace tb = true ->
  let s := (ta ++ " " ++ tb)%string in
  (a < b ->
     (parse_u16 ta = Some a -> parse_u16 tb = Some b ->
      exists f, Fontsizing.from_str s = Some f /\
                Fontsizing.to_vec f = Some (range_inclusive a b)) /\
     Z.of_nat (List.length (range_inclusive a b)) = b - a + 1 /\
     (parse_i32 ta = Some a -> parse_i32 tb = Some b -> 0 < a ->
      Input.ints_from_str s = Ok (range_inclusive a b))) /\
  (b < a ->
     (parse_u16 ta = Some a -> parse_u16 tb = Some b ->
      exists f, Fontsizing.from_str s = Some f /\ Fontsizing.to_vec f = Some [b; a]) /\
     (parse_i32 ta = Some a -> parse_i32 tb = Some b -> 0 < b ->
      Input.ints_from_str s = Ok [a; b])).
Proof.
  intros ta tb a b Ha Hb Hwa Hwb s.
  assert (Hsplit : split_whitespace s = [ta; tb])
    by (apply split_whitespace_two_tokens; assumption).
  assert (Hfs : parse_u16 ta = Some a -> parse_u16 tb = Some b ->
                Fontsizing.from_str s = Some (Fontsizing.from_vec [a; b])).
  { intros Hua Hub. unfold Fontsizing.from_str. rewrite Hsplit. simpl.
    rewrite Hua, Hub. reflexivity. }
  assert (Hne : exists c rest, s = String c rest).
  { destruct ta as [|c rest]; [contradiction|]. exists c, (rest ++ " " ++ tb)%string.
    reflexivity. }
  assert (Hints : parse_i32 ta = Some a -> parse_i32 tb = Some b -> 0 < a -> 0 < b ->
    Input.ints_from_str s =
    Ok (hashset_collect
          (if (a <? b) && negb (b =? a) then range_inclusive a b else [a; b]))).
  { intros Hia Hib Ha0 Hb0. destruct Hne as (c & rest & Hs). unfold Input.ints_from_str.
    rewrite Hs. rewrite <- Hs, Hsplit. simpl. rewrite Hia, Hib.
    replace (0 <? a) with true by (symmetry; apply Z.ltb_lt; exact Ha0).
    replace (0 <? b) with true by (symmetry; apply Z.ltb_lt; exact Hb0).
    reflexivity. }
  split; intros Hab.
  - split; [|split].
    + intros Hua Hub.
      exists (Fontsizing.from_vec [a; b]). split; [exact (Hfs Hua Hub)|].
      simpl. replace (b <? a) with false by (symmetry; apply Z.ltb_ge; lia).
      replace (a <? b) with true by (symmetry; apply Z.ltb_lt; exact Hab).
      simpl. rewrite hashset_collect_nodup_id by apply range_inclusive_nodup.
      rewrite sort_unstable_sorted_id by apply range_inclusive_sorted. reflexivity.
    + apply range_inclusive_length. lia.
    + intros Hia Hib Ha0. rewrite (Hints Hia Hib) by lia.
      replace (a <? b) with true by (symmetry; apply Z.ltb_lt; exact Hab).
      replace (b =? a) with false by (symmetry; apply Z.eqb_neq; lia).
      simpl. rewrite hashset_collect_nodup_id by apply range_inclusive_nodup.
      reflexivity.
  - split.
    + intros Hua Hub.
      exists (Fontsizing.from_vec [a; b]). split; [exact (Hfs Hua Hub)|].
      unfold Fontsizing.from_vec.
      replace (b <? a) with true by (symmetry; apply Z.ltb_lt; exact Hab).
      rewrite hashset_collect_nodup_id
        by (constructor; [simpl; lia | constructor; [simpl; tauto | constructor]]).
      simpl. replace (a <=? b) with false by (symmetry; apply Z.leb_gt; exact Hab).
      reflexivity.
    + intros Hia Hib Hb0. rewrite (Hints Hia Hib) by lia.
      replace (a <? b) with false by (symmetry; apply Z.ltb_ge; lia).
      cbn [andb]. apply f_equal. apply hashset_collect_nodup_id.
      constructor; [simpl; lia | constructor; [simpl; tauto | constructor]].
Qed.

(** ** Values of a font sizing and their round trip through [from_vec] *)

Lemma insert_sorted_perm : forall x l, Permutation.Permutation (insert_sorted x l) (x :: l).
Proof.
  intros x l. induction l as [|y t IH]; simpl; [reflexivity|].
  destruct (x <=? y); [reflexivity|].
  eapply Permutation.perm_trans; [apply Permutation.perm_skip; exact IH|].
  apply Permutation.perm_swap.
Qed.

Lemma sort_unstable_perm : forall l, Permutation.Permutation (sort_unstable l) l.
Proof.
  induction l as [|x t IH]; simpl; [reflexivity|].
  eapply Permutation.perm_trans; [apply insert_sorted_perm|].
  apply Permutation.perm_skip. exact IH.
Qed.

Lemma insert_sorted_sorted : forall x l, Sorted Z.le l -> Sorted Z.le (insert_sorted x l).
Proof.
  intros x l. induction l as [|y t IH]; intros Hs; simpl.
  - repeat constructor.
  - apply Sorted_inv in Hs as [Ht Hy].
    destruct (x <=? y) eqn:Hxy.
    + apply Z.leb_le in Hxy. constructor; [constructor; assumption | constructor; exact Hxy].
    + apply Z.leb_gt in Hxy. constructor; [apply IH; exact Ht|].
      destruct t as [|z t']; simpl; [constructor; lia|].
      inversion Hy; subst. destruct (x <=? z); constructor; lia.
Qed.

Lemma sort_unstable_sorted : forall l, Sorted Z.le (sort_unstable l).
Proof. induction l; simpl; [constructor | apply insert_sorted_sorted; assumption]. Qed.

Lemma sorted_le_nodup_lt : forall l, Sorted Z.le l -> NoDup l -> StronglySorted Z.lt l.
Proof.
  intros l Hs Hn. apply Sorted_StronglySorted in Hs; [|intros a b c; lia].
  induction Hs as [|x t Ht IH Hall]; constructor.
  - apply IH. inversion Hn; assumption.
  - inversion Hn; subst. rewrite Forall_forall in *. intros y Hy.
    specialize (Hall y Hy). assert (x <> y) by (intros ->; contradiction). lia.
Qed.

Lemma strongly_sorted_lt_nodup : forall l, StronglySorted Z.lt l -> NoDup l.
Proof.
  induction 1 as [|x t Ht IH Hall]; constructor; [|exact IH].
  rewrite Forall_forall in Hall. intros Hin. specialize (Hall x Hin). lia.
Qed.

Lemma strongly_sorted_lt_le : forall l, StronglySorted Z.lt l -> Sorted Z.le l.
Proof.
  intros l H. apply StronglySorted_Sorted.
  induction H as [|x t Ht IH Hall]; constructor; [exact IH|].
  rewrite Forall_forall in *. intros y Hy. specialize (Hall y Hy). lia.
Qed.

Lemma step_go_incl : forall {A} k skip (l : list A) x, In x (step_go k skip l) -> In x l.
Proof.
  intros A k skip l. revert skip. induction l as [|y t IH]; intros skip x Hx; simpl in *.
  - exact Hx.
  - destruct skip as [|s']; [destruct Hx as [<- | Hx]; [left; reflexivity | right; eapply IH; eauto]|].
    right. eapply IH. exact Hx.
Qed.

Lemma step_go_sorted : forall k skip l,
  StronglySorted Z.lt l -> StronglySorted Z.lt (step_go k skip l).
Proof.
  intros k skip l. revert skip. induction l as [|y t IH]; intros skip Hs; simpl.
  - constructor.
  - apply StronglySorted_inv in Hs as [Ht Hall]. destruct skip as [|s'].
    + constructor; [apply IH; exact Ht|].
      rewrite Forall_forall in *. intros z Hz. apply Hall. eapply step_go_incl. exact Hz.
    + apply IH. exact Ht.
Qed.

Lemma range_inclusive_strict : forall a b, StronglySorted Z.lt (range_inclusive a b).
Proof.
  intros a b. apply sorted_le_nodup_lt; [apply range_inclusive_sorted | apply range_inclusive_nodup].
Qed.

Lemma range_inclusive_nonempty : forall a b, a <= b -> range_inclusive a b <> [].
Proof.
  intros a b H. unfold range_inclusive.
  replace (a <=? b) with true by (symmetry; apply Z.leb_le; exact H). discriminate.
Qed.

(** The values of a valid font sizing form a non-empty strictly ascending
    list. *)
Lemma to_vec_valid : forall f, Fontsizing.valid f ->
  exists vs, Fontsizing.to_vec f = Some vs /\ vs <> [] /\ StronglySorted Z.lt vs.
Proof.
  intros [i | min max step | h] Hv; simpl in Hv.
  - exists [i]. split; [reflexivity|]. split; [discriminate|]. repeat constructor.
  - destruct Hv as [Hle Hst]. simpl.
    destruct step as [[|k]|]; [contradiction| |].
    + exists (step_go k 0 (range_inclusive min max)). split; [reflexivity|]. split.
      * pose proof (range_inclusive_nonempty min max Hle).
        destruct (range_inclusive min max); [contradiction | discriminate].
      * apply step_go_sorted. apply range_inclusive_strict.
    + exists (range_inclusive min max). split; [reflexivity|]. split.
      * apply range_inclusive_nonempty. exact Hle.
      * apply range_inclusive_strict.
  - destruct Hv as [Hne Hnd]. exists (sort_unstable h). split; [reflexivity|]. split.
    + intros E. apply Hne. apply Permutation.Permutation_nil.
      rewrite <- E. apply sort_unstable_perm.
    + apply sorted_le_nodup_lt; [apply sort_unstable_sorted|].
      eapply Permutation.Permutation_NoDup; [|exact Hnd].
      apply Permutation.Permutation_sym, sort_unstable_perm.
Qed.

Lemma from_vec_to_vec_strict : forall vs, vs <> [] -> StronglySorted Z.lt vs ->
  Fontsizing.to_vec (Fontsizing.from_vec vs) =
  Some (match vs with [a; b] => range_inclusive a b | _ => vs end).
Proof.
  intros vs Hne Hs.
  destruct vs as [|a [|b [|c t]]]; [contradiction | reflexivity | |].
  - apply StronglySorted_inv in Hs as [_ Hall]. inversion Hall; subst.
    unfold Fontsizing.from_vec.
    replace (b <? a) with false by (symmetry; apply Z.ltb_ge; lia).
    replace (a <? b) with true by (symmetry; apply Z.ltb_lt; assumption).
    simpl. rewrite hashset_collect_nodup_id by apply range_inclusive_nodup.
    rewrite sort_unstable_sorted_id by apply range_inclusive_sorted. reflexivity.
  - unfold Fontsizing.from_vec. cbn [Fontsizing.to_vec].
    rewrite hashset_collect_nodup_id by (apply strongly_sorted_lt_nodup; exact Hs).
    rewrite sort_unstable_sorted_id by (apply strongly_sorted_lt_le; exact Hs).
    reflexivity.
Qed.

(** C7 (amended): for every valid font sizing, turning its values back
    into a font sizing with [from_vec] keeps its values, except when there
    are exactly two values [a < b]: those come back as the whole range
    [a..=b] (the same two values only when [b = a + 1]). *)
Theorem from_vec_to_vec_round_trip : forall f vs,
  Fontsizing.valid f -> Fontsizing.to_vec f = Some vs ->
  Fontsizing.to_vec (Fontsizing.from_vec vs) =
  Some (match vs with [a; b] => range_inclusive a b | _ => vs end).
Proof.
  intros f vs Hv Hvs. destruct (to_vec_valid f Hv) as (vs' & E & Hne & Hs).
  rewrite Hvs in E. injection E as <-. apply from_vec_to_vec_strict; assumption.
Qed.

(** C7 counterexample: the set {10, 20} serialises to [10; 20], which
    parses back (through [from_vec], and through [from_str] on "10 20")
    as the eleven sizes 10..=20. *)
Lemma two_value_set_round_trip_widens :
  Fontsizing.valid (Fontsizing.Flex [20; 10]) /\
  Fontsizing.to_vec (Fontsizing.Flex [20; 10]) = Some [10; 20] /\
  Fontsizing.to_vec (Fontsizing.from_vec [10; 20]) =
    Some [10; 11; 12; 13; 14; 15; 16; 17; 18; 19; 20] /\
  option_map Fontsizing.to_vec (Fontsizing.from_str "10 20") =
    Some (Some [10; 11; 12; 13; 14; 15; 16; 17; 18; 19; 20]).
Proof.
  split; [|split; [reflexivity | split; reflexivity]].
  split; [discriminate|]. constructor; [simpl; lia | constructor; [simpl; tauto | constructor]].
Qed.

(** ** Construction of font-size specifications *)

Lemma range_inclusive_empty : forall a b, b < a -> range_inclusive a b = [].
Proof.
  intros a b H. unfold range_inclusive.
  replace (a <=? b) with false by (symmetry; apply Z.leb_gt; exact H). reflexivity.
Qed.

Lemma LayoutManager_new_no_font_sizes : forall o src,
  possible_font_sizes src = [] -> LayoutManager_new o src = Err NoValidFontSizes.
Proof. intros o src H. unfold LayoutManager_new. rewrite H. reflexivity. Qed.

(** C8 (amended): an empty list of values is not refused when a font
    sizing is built: [from_vec []] (and so [from_str] on the empty string)
    gives the default range 10..=30. A [Range] whose minimum exceeds its
    maximum is built without complaint and has no values; the empty list of
    sizes is refused only later, by [LayoutManager::new], with
    [NoValidFontSizes]. Only [input::FontSizing::from_range] given both
    bounds refuses [max < min] at once, with [BadFontRange]. *)
Theorem font_sizing_construction_unchecked :
  Fontsizing.from_vec [] = Fontsizing.default /\
  Fontsizing.from_str "" = Some Fontsizing.default /\
  (forall min max step s, max < min -> step <> Some 0%nat ->
     Fontsizing.set_min_size (Fontsizing.Range s max step) min =
       Fontsizing.Range min max step /\
     Fontsizing.to_vec (Fontsizing.Range min max step) = Some []) /\
  (forall o src, possible_font_sizes src = [] ->
     LayoutManager_new o src = Err NoValidFontSizes) /\
  (forall min max, max < min ->
     Input.from_range (Some min) (Some max) = Err Input.BadFontRange).
Proof.
  split; [reflexivity|]. split; [reflexivity|]. split; [|split].
  - intros min max step s Hlt Hst. split; [reflexivity|]. simpl.
    rewrite range_inclusive_empty by exact Hlt.
    destruct step as [[|k]|]; [contradiction | reflexivity | reflexivity].
  - exact LayoutManager_new_no_font_sizes.
  - intros min max H. simpl.
    replace (max <? min) with true by (symmetry; apply Z.ltb_lt; exact H). reflexivity.
Qed.

(** C8 counterexample: the empty list becomes the default range; the
    default range with its minimum raised to 40 is accepted and has no
    sizes, which only [LayoutManager::new] refuses; and
    [input::FontSizing::from_range] with a minimum of 600 and no maximum
    accepts the empty range 600..=500. *)
Lemma empty_font_sizing_accepted_at_construction :
  Fontsizing.from_vec [] = Fontsizing.Range 10 30 None /\
  Fontsizing.set_min_size Fontsizing.default 40 = Fontsizing.Range 40 30 None /\
  Fontsizing.to_vec (Fontsizing.set_min_size Fontsizing.default 40) = Some [] /\
  LayoutManager_new (threshold_oracle (fun _ _ => 100) (mkRect 0 0 1 1))
    (mkLayoutSource [] [10] [10] 12 "ab") = Err NoValidFontSizes /\
  Input.from_range (Some 600) None = Ok (Input.Selection []).
Proof. repeat split; reflexivity. Qed.

(** ** The background rectangle *)
Module RenderedProofs.
Import Rendered.
Local Open Scope string_scope.

Lemma string_compare_refl : forall s, String.compare s s = Eq.
Proof.
  intros s. pose proof (String.compare_antisym s s) as H.
  destruct (String.compare s s); [reflexivity | discriminate | discriminate].
Qed.

Lemma btree_map_insert_get : forall k v m k',
  get k' (btree_map_insert k v m) = if String.eqb k' k then Some v else get k' m.
Proof.
  intros k v m k'. induction m as [|[k0 v0] t IH]; simpl; [reflexivity|].
  destruct (String.compare k k0) eqn:Hc; simpl.
  - apply String.compare_eq_iff in Hc. subst k0.
    destruct (String.eqb k' k); reflexivity.
  - reflexivity.
  - rewrite IH.
    destruct (String.eqb_spec k' k0) as [->|Hne0]; destruct (String.eqb_spec k0 k) as [->|Hne];
      try reflexivity.
    rewrite string_compare_refl in Hc. discriminate.
Qed.

Lemma string_compare_lt_trans : forall s1 s2 s3,
  String.compare s1 s2 = Lt -> String.compare s2 s3 = Lt -> String.compare s1 s3 = Lt.
Proof.
  induction s1 as [|a1 t1 IH]; intros [|a2 t2] [|a3 t3]; simpl; intros H12 H23;
    try discriminate; try reflexivity.
  unfold Ascii.compare in *.
  destruct (N.compare_spec (Ascii.N_of_ascii a1) (Ascii.N_of_ascii a2)) as [E12|L12|G12];
  destruct (N.compare_spec (Ascii.N_of_ascii a2) (Ascii.N_of_ascii a3)) as [E23|L23|G23];
  destruct (N.compare_spec (Ascii.N_of_ascii a1) (Ascii.N_of_ascii a3)) as [E13|L13|G13];
    try discriminate; try reflexivity; try lia.
  eapply IH; eassumption.
Qed.

(** The order of the keys of a [BTreeMap]. *)
Definition key_lt (a b : string * string) : Prop := String.compare (fst a) (fst b) = Lt.

Lemma btree_map_insert_in : forall k v m p,
  In p (btree_map_insert k v m) -> p = (k, v) \/ In p m.
Proof.
  intros k v m p. induction m as [|[k0 v0] t IH]; simpl.
  - intros [<-|[]]. left. reflexivity.
  - destruct (String.compare k k0); simpl; intros [<-|Hin]; auto.
    destruct (IH Hin); auto.
Qed.

Lemma btree_map_insert_sorted : forall k v m,
  StronglySorted key_lt m -> StronglySorted key_lt (btree_map_insert k v m).
Proof.
  intros k v m. induction m as [|[k0 v0] t IH]; intros Hs; simpl.
  - repeat constructor.
  - apply StronglySorted_inv in Hs as [Ht Hall].
    destruct (String.compare k k0) eqn:Hc.
    + apply String.compare_eq_iff in Hc. subst k0. constructor; assumption.
    + constructor; [constructor; assumption|]. constructor; [exact Hc|].
      rewrite Forall_forall in *. intros y Hy. unfold key_lt in *.
      eapply string_compare_lt_trans; [exact Hc | exact (Hall y Hy)].
    + constructor; [apply IH; exact Ht|]. rewrite Forall_forall in *.
      intros y Hy. destruct (btree_map_insert_in _ _ _ _ Hy) as [->|Hin].
      * unfold key_lt. simpl. rewrite String.compare_antisym, Hc. reflexivity.
      * apply Hall. exact Hin.
Qed.

Lemma key_lt_nodup : forall m, StronglySorted key_lt m -> NoDup (map fst m).
Proof.
  induction 1 as [|a t Ht IH Hall]; simpl; constructor; [|exact IH].
  rewrite Forall_forall in Hall. intros Hin. apply in_map_iff in Hin as (b & Eb & Hb).
  specialize (Hall b Hb). unfold key_lt in Hall. rewrite Eb, string_compare_refl in Hall.
  discriminate.
Qed.

Lemma btree_map_collect_go : forall attrs m k,
  NoDup (map fst attrs) ->
  get k (fold_left (fun m kv => btree_map_insert (fst kv) (snd kv) m) attrs m) =
  match get k attrs with Some v => Some v | None => get k m end.
Proof.
  induction attrs as [|[k0 v0] t IH]; intros m k Hn; simpl; [reflexivity|].
  inversion Hn as [|? ? Hnin Ht]; subst. rewrite IH by exact Ht.
  rewrite btree_map_insert_get. simpl.
  destruct (String.eqb_spec k k0) as [->|Hne]; [|reflexivity].
  assert (get k0 t = None) as ->; [|reflexivity].
  clear -Hnin. induction t as [|[k1 v1] t IH]; simpl; [reflexivity|].
  simpl in Hnin. destruct (String.eqb_spec k0 k1) as [<-|Hne1].
  - exfalso. apply Hnin. left. reflexivity.
  - apply IH. intros Hin. apply Hnin. right. exact Hin.
Qed.

Lemma btree_map_collect_sorted_go : forall attrs m,
  StronglySorted key_lt m ->
  StronglySorted key_lt (fold_left (fun m kv => btree_map_insert (fst kv) (snd kv) m) attrs m).
Proof.
  induction attrs as [|kv t IH]; intros m Hs; simpl; [exact Hs|].
  apply IH, btree_map_insert_sorted, Hs.
Qed.

(** C10: the rectangle inserted by [insert_background_rect] has [x] and [y]
    equal to 0 and [width] and [height] equal to the textbox's own fields,
    whatever the caller's map holds under these keys; every other attribute
    of the caller is kept; the attributes are rendered in ascending key
    order, each key once; the textbox's width and height are unchanged and
    every "</defs>" of its source is replaced by the rectangle. *)
Theorem insert_background_rect_box_attrs :
  forall (f64 : Type) (f64_to_string : f64 -> string)
         (self : RenderedTextbox f64) (attrs : list (string * string)),
  NoDup (map fst attrs) ->
  let a := rect_attrs f64_to_string self attrs in
  get "x" a = Some "0" /\
  get "y" a = Some "0" /\
  get "width" a = Some (f64_to_string (width self)) /\
  get "height" a = Some (f64_to_string (height self)) /\
  (forall k, k <> "x" -> k <> "y" -> k <> "width" -> k <> "height" ->
     get k a = get k attrs) /\
  StronglySorted key_lt a /\ NoDup (map fst a) /\
  padding_rect f64_to_string self attrs =
    "</defs>" ++ newline ++ "<g>" ++ newline ++ "<rect "
      ++ join " " (map render_attr a) ++ "/>" ++ newline ++ "</g>" /\
  (forall self', insert_background_rect f64_to_string self attrs = Ok self' ->
     width self' = width self /\ height self' = height self /\
     src self' = replace (src self) "</defs>" (padding_rect f64_to_string self attrs)).
Proof.
  intros f64 f64_to_string self attrs Hn a.
  assert (Hs : StronglySorted key_lt a).
  { unfold a, rect_attrs. repeat apply btree_map_insert_sorted.
    apply btree_map_collect_sorted_go. constructor. }
  unfold a, rect_attrs. rewrite !btree_map_insert_get.
  split; [reflexivity|]. split; [reflexivity|].
  split; [reflexivity|]. split; [reflexivity|]. split.
  - intros k Hx Hy Hw Hh. rewrite !btree_map_insert_get.
    destruct (String.eqb_spec k "height"); [contradiction|].
    destruct (String.eqb_spec k "width"); [contradiction|].
    destruct (String.eqb_spec k "y"); [contradiction|].
    destruct (String.eqb_spec k "x"); [contradiction|].
    unfold btree_map_collect. rewrite btree_map_collect_go by exact Hn.
    destruct (get k attrs); reflexivity.
  - split; [exact Hs|]. split; [apply key_lt_nodup; exact Hs|].
    split; [reflexivity|].
    intros self' E. injection E as <-. repeat split.
Qed.

End RenderedProofs.

(* ================================================================= *)
(** * Further properties of the code *)

(** ** The font search, without any assumption on the oracle *)

Section SearchBase.

Context {S T : Type}.
Variable f : T -> S -> Ordering * S.
Variable s : list T.
Variable dflt : T.

(** An invariant of the search's base and state: kept by every probe that
    moves the base to [mid] unless the answer is [Greater]. *)
Lemma search_loop_base_inv : forall (P : nat -> S -> Prop),
  (forall base mid st, P base st ->
     P (if ordering_eqb (fst (f (nth mid s dflt) st)) Greater then base else mid)
       (snd (f (nth mid s dflt) st))) ->
  forall fuel base size st, P base st ->
  P (fst (search_loop f s dflt fuel base size st))
    (snd (search_loop f s dflt fuel base size st)).
Proof.
  intros P HP. induction fuel as [|fuel IH]; intros base size st Hst; [exact Hst|].
  cbn [search_loop]. destruct (Nat.leb size 1); [exact Hst|].
  specialize (HP base (base + size / 2)%nat st Hst).
  destruct (f (nth (base + size / 2) s dflt) st) as [cmp st1]. apply IH. exact HP.
Qed.

End SearchBase.

(** Whatever the oracle answers, a successful search leaves the layout at
    one of the candidate sizes, with the box unchanged, and the layout fits
    there. *)
Theorem grow_to_maximum_font_size_sound : forall (o : Oracle) (v : list Z) (l : Layout),
  fst (grow_to_maximum_font_size o v l) = Ok tt ->
  exists x, In x v /\ snd (grow_to_maximum_font_size o v l) = set_font_size l x /\
            fits o (set_font_size l x) = true.
Proof.
  intros o v l Hok. unfold grow_to_maximum_font_size in *.
  unfold binary_search_by in *.
  destruct (Nat.eqb (List.length v) 0); [simpl in Hok; discriminate|].
  pose (P := fun (base : nat) (st : Layout) => same_box l st /\
               (base = 0%nat \/ fits o (set_font_size l (nth base v 0)) = true)).
  assert (Hinv : P (fst (search_loop (change_size_and_check_fits o) v 0
                       (List.length v) 0 (List.length v) l))
                   (snd (search_loop (change_size_and_check_fits o) v 0
                       (List.length v) 0 (List.length v) l))).
  { apply search_loop_base_inv; [|split; [intros y; reflexivity | left; reflexivity]].
    intros base mid st [Hb Hf]. unfold change_size_and_check_fits. simpl.
    split; [intros y; unfold set_font_size; simpl; apply Hb|].
    rewrite <- (Hb (nth mid v 0)).
    destruct (fits o (set_font_size l (nth mid v 0))) eqn:E; simpl;
      [right; exact E | exact Hf]. }
  destruct (search_loop (change_size_and_check_fits o) v 0 (List.length v) 0
              (List.length v) l) as [base st1].
  simpl in Hinv. destruct Hinv as [Hb Hf].
  unfold change_size_and_check_fits in *.
  rewrite <- (Hb (nth base v 0)) in *.
  destruct (fits o (set_font_size l (nth base v 0))) eqn:E; simpl in Hok |- *.
  - replace (base + 1 - 1)%nat with base in * by lia.
    destruct (Nat.eqb (base + 1) 0); [discriminate|].
    destruct (nth_error v base) as [x|] eqn:Hn; [|discriminate].
    exists x. split; [eapply nth_error_In; exact Hn|].
    apply nth_error_nth with (d := 0) in Hn. subst x.
    split; [|exact E]. simpl. unfold set_font_size. simpl. reflexivity.
  - destruct Hf as [-> | Hf]; [simpl in Hok; discriminate|].
    rewrite Hf in E. discriminate.
Qed.

(** ** The layout manager's answer *)

Lemma first_fitting_dimension_in : forall o fs l dims w h,
  first_fitting_dimension o fs l dims = Some (w, h) ->
  In (w, h) dims /\ fst (grow_to_maximum_font_size o fs (set_height (set_width l w) h)) = Ok tt.
Proof.
  intros o fs l dims. induction dims as [|[w' h'] rest IH]; intros w h H; simpl in H;
    [discriminate|].
  destruct (fst (grow_to_maximum_font_size o fs (set_height (set_width l w') h')))
    as [[]|e] eqn:E.
  - injection H as <- <-. split; [left; reflexivity | exact E].
  - destruct (IH w h H) as [Hi Hg]. split; [right; exact Hi | exact Hg].
Qed.

Lemma cartesian_in : forall ws hs w h, In (w, h) (cartesian ws hs) <-> In w ws /\ In h hs.
Proof.
  intros ws hs w h. unfold cartesian. rewrite in_flat_map. split.
  - intros (w' & Hw & Hin). apply in_map_iff in Hin as (h' & E & Hh).
    injection E as -> ->. split; assumption.
  - intros [Hw Hh]. exists w. split; [exact Hw|]. apply in_map_iff. exists h. split; auto.
Qed.

Lemma get_best_fit_spec : forall (o : Oracle) (src : LayoutSource) (m : LayoutManager) (l : Layout),
  LayoutManager_new o src = Ok m -> get_best_fit o m = Ok l ->
  In (lay_width l) (possible_widths src) /\ In (lay_height l) (possible_heights src) /\
  In (lay_font_size l) (possible_font_sizes src) /\
  lay_text l = markup_text o (markup src) /\ fits o l = true.
Proof.
  intros o src m l Hnew Hfit.
  assert (Hm : dimensions m = cartesian (possible_widths src) (possible_heights src) /\
               font_sizes m = btreeset_collect (possible_font_sizes src) /\
               lay_text (base_layout m) = markup_text o (markup src)).
  { unfold LayoutManager_new in Hnew.
    destruct (btreeset_collect (possible_font_sizes src)) eqn:Ef; [discriminate|].
    destruct (possible_heights src); [discriminate|].
    destruct (possible_widths src); [discriminate|].
    injection Hnew as <-. simpl. split; [reflexivity|]. split; reflexivity. }
  destruct Hm as (Hd & Hf & Ht).
  unfold get_best_fit in Hfit.
  rewrite (best_fit_loop_first o (font_sizes m) (dimensions m) (base_layout m)
             (base_layout m) eq_refl) in Hfit.
  destruct (first_fitting_dimension o (font_sizes m) (base_layout m) (dimensions m))
    as [[w h]|] eqn:E; [|discriminate].
  injection Hfit as Hl.
  destruct (first_fitting_dimension_in _ _ _ _ _ _ E) as [Hin Hok].
  destruct (grow_to_maximum_font_size_sound _ _ _ Hok) as (x & Hx & Hs & Hfx).
  rewrite <- Hl, Hs.
  rewrite Hd, cartesian_in in Hin. destruct Hin as [Hw Hh].
  rewrite Hf in Hx. apply (proj1 (proj2 (btreeset_collect_spec (possible_font_sizes src)) x)) in Hx.
  simpl. split; [exact Hw|]. split; [exact Hh|]. split; [exact Hx|].
  split; [exact Ht | exact Hfx].
Qed.


(** ** Font sizings *)

Lemma step_go_in : forall {A} k skip (l : list A) x,
  In x (step_go k skip l) <-> exists j, nth_error l (skip + j * S k) = Some x.
Proof.
  intros A k skip l. revert skip. induction l as [|y t IH]; intros skip x; simpl.
  - split; [intros []|]. intros (j & Hj). destruct (skip + j * S k)%nat; discriminate.
  - destruct skip as [|s'].
    + simpl. rewrite IH. split.
      * intros [<- | (j & Hj)]; [exists 0%nat; reflexivity|].
        exists (S j). rewrite <- Hj. cbn. f_equal; lia.
      * intros ([|j] & Hj); [left; injection Hj as ->; reflexivity|].
        right. exists j. rewrite <- Hj. cbn. f_equal; lia.
    + rewrite IH. split; intros (j & Hj); exists j; exact Hj.
Qed.

Lemma range_inclusive_nth : forall a b i x,
  nth_error (range_inclusive a b) i = Some x <-> a <= x <= b /\ x = a + Z.of_nat i.
Proof.
  intros a b i x. unfold range_inclusive. destruct (a <=? b) eqn:H.
  - apply Z.leb_le in H. rewrite nth_error_map.
    destruct (nth_error (seq 0 (S (Z.to_nat (b - a)))) i) as [k|] eqn:E; simpl.
    + assert (Hi : (i < S (Z.to_nat (b - a)))%nat).
      { rewrite <- (length_seq (S (Z.to_nat (b - a))) 0). apply nth_error_Some.
        rewrite E. discriminate. }
      assert (k = i) as ->.
      { apply nth_error_nth with (d := 0%nat) in E. rewrite seq_nth in E; lia. }
      split; [intros E2; injection E2 as <-; lia | intros [_ ->]; reflexivity].
    + apply nth_error_None in E. rewrite length_seq in E. split; [discriminate | lia].
  - apply Z.leb_gt in H. destruct i; simpl; split; (discriminate || lia).
Qed.

(** A range with a step of [k + 1] yields, in strictly ascending order,
    exactly the values [min + j * (k + 1)] with [j >= 0] that do not
    exceed [max]. *)
Theorem to_vec_range_step : forall (min max : Z) (k : nat),
  exists vs, Fontsizing.to_vec (Fontsizing.Range min max (Some (S k))) = Some vs /\
  StronglySorted Z.lt vs /\
  forall x, In x vs <-> min <= x <= max /\ exists j, 0 <= j /\ x = min + j * (Z.of_nat k + 1).
Proof.
  intros min max k. exists (step_go k 0 (range_inclusive min max)).
  split; [reflexivity|]. split; [apply step_go_sorted, range_inclusive_strict|].
  intros x. rewrite step_go_in. split.
  - intros (j & Hj). apply range_inclusive_nth in Hj as [Hr ->]. split; [lia|].
    exists (Z.of_nat j). split; [lia|]. lia.
  - intros [Hr (j & Hj & ->)]. exists (Z.to_nat j). apply range_inclusive_nth.
    split; [exact Hr|]. lia.
Qed.

Lemma flex_collect_spec : forall l, exists ws,
  Fontsizing.to_vec (Fontsizing.Flex (hashset_collect l)) = Some ws /\
  StronglySorted Z.lt ws /\ forall x, In x ws <-> In x l.
Proof.
  intros l. exists (sort_unstable (hashset_collect l)). split; [reflexivity|]. split.
  - apply sorted_le_nodup_lt; [apply sort_unstable_sorted|].
    eapply Permutation.Permutation_NoDup; [apply Permutation.Permutation_sym, sort_unstable_perm|].
    apply NoDup_nodup.
  - intros x. split.
    + intros Hx. apply Permutation.Permutation_in with (l' := hashset_collect l) in Hx;
        [|apply sort_unstable_perm]. apply nodup_In in Hx. exact Hx.
    + intros Hx. apply Permutation.Permutation_in with (l := hashset_collect l);
        [apply Permutation.Permutation_sym, sort_unstable_perm|]. apply nodup_In. exact Hx.
Qed.

(** Whatever list [from_vec] gets, the sizing it builds yields a strictly
    ascending list: the default range 10..=30 for no value, the values
    themselves otherwise, widened to the whole range between them for two
    values. *)
Theorem from_vec_values : forall vs : list Z, exists ws,
  Fontsizing.to_vec (Fontsizing.from_vec vs) = Some ws /\ StronglySorted Z.lt ws /\
  forall x, In x ws <->
    match vs with
    | [] => 10 <= x <= 30
    | [a; b] => In x vs \/ a <= x <= b
    | _ => In x vs
    end.
Proof.
  intros vs. destruct vs as [|a [|b [|c t]]].
  - exists (range_inclusive 10 30). split; [reflexivity|].
    split; [apply range_inclusive_strict | intros x; apply range_inclusive_in].
  - exists [a]. split; [reflexivity|]. split; [repeat constructor|]. intros x. simpl. tauto.
  - unfold Fontsizing.from_vec.
    destruct (b <? a) eqn:E1; [|destruct (a <? b) eqn:E2].
    + destruct (flex_collect_spec [a; b]) as (ws & H1 & H2 & H3).
      exists ws. split; [exact H1|]. split; [exact H2|]. intros x. rewrite H3.
      apply Z.ltb_lt in E1. simpl. lia.
    + destruct (flex_collect_spec (range_inclusive a b)) as (ws & H1 & H2 & H3).
      exists ws. split; [exact H1|]. split; [exact H2|]. intros x. rewrite H3.
      rewrite range_inclusive_in. apply Z.ltb_lt in E2. simpl. lia.
    + destruct (flex_collect_spec [a; b]) as (ws & H1 & H2 & H3).
      exists ws. split; [exact H1|]. split; [exact H2|]. intros x. rewrite H3.
      apply Z.ltb_ge in E1. apply Z.ltb_ge in E2. simpl. lia.
  - destruct (flex_collect_spec (a :: b :: c :: t)) as (ws & H1 & H2 & H3).
    exists ws. split; [exact H1|]. split; [exact H2 | exact H3].
Qed.

(** ** Parsing font sizes and dimensions *)

Lemma parse_digits_bounds : forall positive lo hi s acc v,
  parse_digits positive lo hi acc s = Some v -> lo <= acc <= hi -> lo <= v <= hi.
Proof.
  intros positive lo hi s. induction s as [|c rest IH]; intros acc v H Hacc; simpl in H.
  - injection H as <-. exact Hacc.
  - destruct (digit_of c) as [d|]; [|discriminate].
    destruct ((acc * 10 <? lo) || (hi <? acc * 10)); [discriminate|].
    destruct ((if positive then acc * 10 + d else acc * 10 - d) <? lo) eqn:E1;
      [discriminate|].
    destruct (hi <? (if positive then acc * 10 + d else acc * 10 - d)) eqn:E2;
      [discriminate|].
    simpl in H. apply (IH _ _ H). apply Z.ltb_ge in E1. apply Z.ltb_ge in E2. lia.
Qed.

Lemma parse_u16_bounds : forall t v, parse_u16 t = Some v -> 0 <= v <= 65535.
Proof.
  intros t v H. unfold parse_u16, parse_int in H.
  destruct t as [|c rest]; [discriminate|].
  destruct (if Ascii.eqb c "+"%char then (true, rest)
            else if false && Ascii.eqb c "-"%char then (false, rest)
            else (true, String c rest)) as [positive digits].
  destruct digits as [|d ds]; [discriminate|].
  apply (parse_digits_bounds _ _ _ _ _ _ H). lia.
Qed.

Lemma collect_results_in : forall l vs x,
  Fontsizing.collect_results l = Some vs -> In x vs -> In (Some x) l.
Proof.
  induction l as [|[y|] t IH]; intros vs x H Hx; simpl in H.
  - injection H as <-. destruct Hx.
  - destruct (Fontsizing.collect_results t) as [vs'|]; [|discriminate].
    injection H as <-. destruct Hx as [<- | Hx]; [left; reflexivity | right; eapply IH; eauto].
  - discriminate.
Qed.

Lemma collect_results_none : forall l,
  Fontsizing.collect_results l = None <-> In None l.
Proof.
  induction l as [|[y|] t IH]; simpl.
  - split; [discriminate | intros []].
  - rewrite <- IH. destruct (Fontsizing.collect_results t); simpl.
    + split; [discriminate | intros [H|H]; discriminate].
    + split; [intros _; right; reflexivity | reflexivity].
  - split; [intros _; left; reflexivity | reflexivity].
Qed.

(** A font sizing read from a string yields a strictly ascending list of
    [u16] values; it never panics. *)
Theorem from_str_u16_values : forall (s : string) (f : Fontsizing.FontSizing),
  Fontsizing.from_str s = Some f ->
  exists ws, Fontsizing.to_vec f = Some ws /\ StronglySorted Z.lt ws /\
             forall x, In x ws -> 0 <= x <= 65535.
Proof.
  intros s f H. unfold Fontsizing.from_str in H.
  destruct (Fontsizing.collect_results (map parse_u16 (split_whitespace s))) as [vs|] eqn:E;
    [|discriminate].
  injection H as <-.
  assert (Hvs : forall x, In x vs -> 0 <= x <= 65535).
  { intros x Hx. apply (collect_results_in _ _ _ E) in Hx.
    apply in_map_iff in Hx as (t & Ht & _). apply (parse_u16_bounds t). exact Ht. }
  destruct (from_vec_values vs) as (ws & H1 & H2 & H3).
  exists ws. split; [exact H1|]. split; [exact H2|].
  intros x Hx. apply H3 in Hx.
  destruct vs as [|a [|b [|c t]]]; try (apply Hvs; exact Hx); [lia|].
  destruct Hx as [Hx | Hx]; [apply Hvs; exact Hx|].
  pose proof (Hvs a ltac:(simpl; auto)). pose proof (Hvs b ltac:(simpl; auto)). lia.
Qed.

(** Reading a font sizing from a string fails exactly when one of its
    whitespace-separated tokens is not a [u16]. *)
Theorem from_str_error_iff_bad_token : forall s : string,
  Fontsizing.from_str s = None <->
  exists t, In t (split_whitespace s) /\ parse_u16 t = None.
Proof.
  intros s. unfold Fontsizing.from_str.
  destruct (Fontsizing.collect_results (map parse_u16 (split_whitespace s))) eqn:E; simpl.
  - split; [discriminate|]. intros (t & Ht & Hp).
    assert (Hn : In None (map parse_u16 (split_whitespace s)))
      by (rewrite <- Hp; apply in_map; exact Ht).
    apply collect_results_none in Hn. rewrite Hn in E. discriminate.
  - split; [intros _|reflexivity]. apply collect_results_none in E.
    apply in_map_iff in E as (t & Hp & Ht). exists t. split; assumption.
Qed.

Lemma split_ws_go_blank : forall s, all_whitespace s = true -> split_ws_go s [] = [].
Proof.
  induction s as [|c rest IH]; intros H; [reflexivity|].
  simpl in H |- *. apply andb_true_iff in H as [Hc Hr]. rewrite Hc. apply IH. exact Hr.
Qed.

(** A string of whitespace only reads as the default font sizing
    (10..=30), and, when it is not empty, as an empty set of dimensions;
    only the empty string is refused by [ints_from_str]. *)
Theorem blank_input : forall s : string, all_whitespace s = true ->
  Fontsizing.from_str s = Some Fontsizing.default /\
  (s <> EmptyString -> Input.ints_from_str s = Ok []).
Proof.
  intros s H. unfold Fontsizing.from_str, Input.ints_from_str, split_whitespace.
  rewrite (split_ws_go_blank s H). split; [reflexivity|].
  intros Hne. destruct s; [contradiction | reflexivity].
Qed.

Lemma parse_positive_ints_pos : forall source toks vs,
  Input.parse_positive_ints source toks = Ok vs -> forall x, In x vs -> 0 < x.
Proof.
  intros source toks. induction toks as [|t rest IH]; intros vs H x Hx; simpl in H.
  - injection H as <-. destruct Hx.
  - destruct (parse_i32 t) as [i|]; [|discriminate].
    destruct (0 <? i) eqn:Hi; [|discriminate].
    destruct (Input.parse_positive_ints source rest) as [l|e] eqn:E; [|discriminate].
    injection H as <-. destruct Hx as [<- | Hx]; [apply Z.ltb_lt; exact Hi|].
    eapply IH; [reflexivity | exact Hx].
Qed.

(** The dimension set [ints_from_str] reads holds distinct positive
    values, including the range it fills in for two ascending values. *)
Theorem ints_from_str_positive_distinct : forall (s : string) (vs : list Z),
  Input.ints_from_str s = Ok vs -> NoDup vs /\ forall x, In x vs -> 0 < x.
Proof.
  intros s vs H. unfold Input.ints_from_str in H. destruct s as [|c rest]; [discriminate|].
  destruct (Input.parse_positive_ints (String c rest) (split_whitespace (String c rest)))
    as [ints|e] eqn:E; [|discriminate].
  injection H as <-. pose proof (parse_positive_ints_pos _ _ _ E) as Hpos.
  split; [apply NoDup_nodup|]. intros x Hx. unfold hashset_collect in Hx.
  apply nodup_In in Hx.
  destruct ints as [|a [|b [|d t]]]; try (apply Hpos; exact Hx).
  destruct ((a <? b) && negb (b =? a)); [|apply Hpos; exact Hx].
  apply range_inclusive_in in Hx. pose proof (Hpos a ltac:(simpl; auto)). lia.
Qed.

(** [from_range]: a selection of the sizes between the given bounds, 0
    and 500 standing in for a missing one, strictly ascending (and empty
    when a single given bound lies beyond the default for the other); an
    error only when both bounds are given and the maximum is below the
    minimum. *)
Theorem from_range_spec : forall mn mx : option Z,
  match Input.from_range mn mx with
  | Ok (Input.Selection v) =>
      StronglySorted Z.lt v /\
      forall x, In x v <-> match mn with Some a => a | None => 0 end <= x <=
                           match mx with Some b => b | None => 500 end
  | Ok (Input.Static _) => False
  | Err e => e = Input.BadFontRange /\ exists a b, mn = Some a /\ mx = Some b /\ b < a
  end.
Proof.
  intros [a|] [b|]; unfold Input.from_range;
    [destruct (b <? a) eqn:E;
       [split; [reflexivity|]; exists a, b; apply Z.ltb_lt in E; auto|] | | |];
    (split; [apply range_inclusive_strict | intros x; apply range_inclusive_in]).
Qed.

(** ** The background rectangle *)

Lemma replace_go_absent : forall fuel p t s,
  p <> EmptyString -> String.index 0 p s = None -> Rendered.replace_go fuel p t s = s.
Proof.
  induction fuel as [|fuel IH]; intros p t s Hp H; [reflexivity|].
  destruct s as [|c rest]; [reflexivity|]. cbn [String.index Rendered.replace_go] in H |- *.
  destruct (String.prefix p (String c rest)); [discriminate|].
  destruct (String.index 0 p rest) eqn:E; [discriminate|].
  rewrite IH; [reflexivity | exact Hp | exact E].
Qed.

(** A textbox whose SVG has no [</defs>] comes out of
    [insert_background_rect] unchanged: the rectangle is silently not
    inserted. *)
Theorem insert_background_rect_no_defs :
  forall (f64 : Type) (f64_to_string : f64 -> string)
         (self : Rendered.RenderedTextbox f64) (attrs : list (string * string)),
  String.index 0 "</defs>" (Rendered.src self) = None ->
  Rendered.insert_background_rect f64_to_string self attrs = Ok self.
Proof.
  intros f64 ts self attrs H. unfold Rendered.insert_background_rect, Rendered.replace.
  rewrite replace_go_absent; [|discriminate | exact H].
  destruct self; reflexivity.
Qed.

(** ** The older font search of src/lib.rs *)

Lemma range_inclusive_nth_error : forall a b i,
  (Z.of_nat i <= b - a) -> nth_error (range_inclusive a b) i = Some (a + Z.of_nat i).
Proof. intros a b i H. apply range_inclusive_nth. lia. Qed.

(** With a check that is monotone over the sizes 0..=499, the older search
    fails with [MinFontSize] exactly when size 0 fails the check, and
    otherwise leaves the layout at the largest size [n] that passes it --
    except that when only size 0 passes, it answers 1, a size that fails. *)
Theorem lib_grow_to_maximum_font_size_spec :
  forall (o : Oracle) (last_char_index : Layout -> Z) (l : Layout),
  let P := fun i => ordering_eqb
             (fst (Lib.will_fit o last_char_index (last_char_index l) i l)) Less in
  (forall i j, 0 <= i -> i <= j -> j <= 499 -> P j = true -> P i = true) ->
  exists r l', Lib.grow_to_maximum_font_size o last_char_index l = Some (r, l') /\
  match r with
  | Err e => e = Lib.MinFontSize /\ P 0 = false
  | Ok n =>
      P 0 = true /\ l' = set_font_size l (n * SCALE) /\ 1 <= n <= 499 /\
      (forall i, 2 <= i <= 499 -> (P i = true <-> i <= n)) /\
      (P 1 = false -> n = 1)
  end.
Proof.
  intros o lci l P Hmono.
  set (vec := range_inclusive 0 (Lib.MAX_FONT_SIZE - 1)).
  assert (Hlen : List.length vec = 500%nat).
  { pose proof (range_inclusive_length 0 (Lib.MAX_FONT_SIZE - 1)) as H.
    unfold Lib.MAX_FONT_SIZE in *. specialize (H ltac:(lia)). fold vec in H. lia. }
  assert (Hnth : forall i, (i < 500)%nat -> nth i vec 0 = Z.of_nat i).
  { intros i Hi. apply nth_error_nth. unfold vec.
    rewrite range_inclusive_nth_error; [reflexivity | unfold Lib.MAX_FONT_SIZE; lia]. }
  set (Inv := fun st : Layout => forall x, set_font_size st x = set_font_size l x).
  destruct (binary_search_by_partition (Lib.will_fit o lci (lci l)) vec 0 Inv P)
    with (st := l) as (k & st' & Hbs & Hinv & Hk & Hlo & Hhi).
  - intros x st Hst. unfold Lib.will_fit, Lib.change_font_size, P. simpl.
    rewrite (Hst (x * SCALE)).
    split; [destruct (_ && _); reflexivity|].
    intros y. unfold set_font_size. simpl. first [reflexivity | apply Hst].
  - intros i j Hij Hj. rewrite Hlen in Hij.
    rewrite Hnth in * by lia. apply (Hmono (Z.of_nat i) (Z.of_nat j)); [lia | lia | lia | exact Hj].
  - intros x. reflexivity.
  - rewrite Hlen in Hk, Hhi.
    assert (HP : forall i, (i < 500)%nat -> P (Z.of_nat i) = true <-> (i < k)%nat).
    { intros i Hi. split.
      - intros Hp. destruct (Nat.lt_ge_cases i k) as [H|H]; [exact H|].
        rewrite <- (Hnth i Hi), (Hhi i ltac:(lia)) in Hp. discriminate.
      - intros H. rewrite <- (Hnth i Hi). apply Hlo. exact H. }
    unfold Lib.grow_to_maximum_font_size. fold vec. rewrite Hbs. simpl.
    destruct (Z.of_nat k <? 1) eqn:Hk1.
    + apply Z.ltb_lt in Hk1. assert (k = 0%nat) as -> by lia.
      eexists _, _. split; [reflexivity|]. split; [reflexivity|].
      destruct (P 0) eqn:E; [|reflexivity].
      apply (HP 0%nat ltac:(lia)) in E. lia.
    + apply Z.ltb_ge in Hk1.
      set (u := if Nat.eqb k 1 then 1%nat else (k - 1)%nat).
      assert (Hu : (u < 500)%nat) by (unfold u; destruct (Nat.eqb k 1); lia).
      unfold vec. rewrite (range_inclusive_nth_error 0 _ u) by (unfold Lib.MAX_FONT_SIZE; lia).
      eexists _, _. split; [reflexivity|]. simpl.
      split; [apply (HP 0%nat ltac:(lia)); lia|].
      split; [unfold Lib.change_font_size; apply Hinv|].
      split; [unfold u; destruct (Nat.eqb k 1) eqn:E1;
              [apply Nat.eqb_eq in E1 | apply Nat.eqb_neq in E1]; lia|].
      split.
      * intros i Hi. replace i with (Z.of_nat (Z.to_nat i)) by lia.
        rewrite HP by lia. unfold u. destruct (Nat.eqb k 1) eqn:E1;
          [apply Nat.eqb_eq in E1 | apply Nat.eqb_neq in E1]; lia.
      * intros H1. change 1 with (Z.of_nat 1) in H1.
        destruct (P (Z.of_nat 1)) eqn:E; [discriminate|].
        assert (~ (1 < k)%nat) by (intros Hlt; apply (HP 1%nat ltac:(lia)) in Hlt; congruence).
        unfold u. replace k with 1%nat by lia. reflexivity.
Qed.

(** ** The output size of a textbox *)

Lemma textbox_output_size_spec : forall (tb : TextBox) (ws hs : list Z) (w h : Z),
  tb_possible_widths tb = Some ws -> tb_possible_heights tb = Some hs ->
  (In w ws -> exists vs n, unit_iter (tb_width tb) = Some vs /\ In n vs /\
                           tb_output_width tb w = Some n) /\
  (In h hs -> exists vs n, unit_iter (tb_width tb) = Some vs /\ In n vs /\
                           tb_output_height tb h = Some n).
Proof.
  intros tb ws hs w h Hw Hh.
  unfold tb_possible_widths, tb_possible_heights, tb_output_width, tb_output_height in *.
  destruct (unit_iter (tb_width tb)) as [vs|]; [|discriminate]. simpl in Hw, Hh.
  split; intros Hin.
  - destruct vs as [|v0 vt]; [injection Hw as <-; destruct Hin|].
    unfold padded_candidates in Hw.
    destruct (total_horizontal_padding (tb_padding tb)) as [hp|]; [|discriminate].
    injection Hw as <-.
    apply (in_map_iff (fun n => n * SCALE - hp * SCALE) (v0 :: vt)) in Hin as (n & <- & Hn).
    exists (v0 :: vt), n. split; [reflexivity|]. split; [exact Hn|]. simpl. f_equal.
    replace (n * SCALE - hp * SCALE) with ((n - hp) * SCALE) by ring.
    rewrite Z.quot_mul by (unfold SCALE; lia). ring.
  - destruct vs as [|v0 vt]; [injection Hh as <-; destruct Hin|].
    unfold padded_candidates in Hh.
    destruct (total_vertical_padding (tb_padding tb)) as [vp|]; [|discriminate].
    injection Hh as <-.
    apply (in_map_iff (fun n => n * SCALE - vp * SCALE) (v0 :: vt)) in Hin as (n & <- & Hn).
    exists (v0 :: vt), n. split; [reflexivity|]. split; [exact Hn|]. simpl. f_equal.
    replace (n * SCALE - vp * SCALE) with ((n - vp) * SCALE) by ring.
    rewrite Z.quot_mul by (unfold SCALE; lia). ring.
Qed.


(** ** Deserialising unit containers and paddings *)

Lemma collect_results_some_in : forall l vs,
  Fontsizing.collect_results l = Some vs -> forall x, In x vs <-> In (Some x) l.
Proof.
  induction l as [|[y|] t IH]; intros vs H x; simpl in H.
  - injection H as <-. simpl. tauto.
  - destruct (Fontsizing.collect_results t) as [vs'|] eqn:E; [|discriminate].
    injection H as <-. simpl. rewrite (IH vs' eq_refl x). split.
    + intros [<- | Hx]; [left; reflexivity | right; exact Hx].
    + intros [E' | Hx]; [injection E' as ->; left; reflexivity | right; exact Hx].
  - discriminate.
Qed.

Lemma collect_results_length : forall l vs,
  Fontsizing.collect_results l = Some vs -> List.length vs = List.length l.
Proof.
  induction l as [|[y|] t IH]; intros vs H; simpl in H.
  - injection H as <-. reflexivity.
  - destruct (Fontsizing.collect_results t) as [vs'|] eqn:E; [|discriminate].
    injection H as <-. simpl. f_equal. apply IH. reflexivity.
  - discriminate.
Qed.

Lemma btreeset_collect_nil : forall l, btreeset_collect l = [] -> l = [].
Proof.
  intros l H. destruct l as [|x t]; [reflexivity|].
  exfalso. apply (btreeset_collect_nonempty (x :: t)); [discriminate | exact H].
Qed.

Lemma as_nonzero_u16_some : forall v x, Serde.as_nonzero_u16 v = Some x -> x = v /\ 1 <= v <= 65535.
Proof.
  intros v x H. unfold Serde.as_nonzero_u16 in H.
  destruct ((1 <=? v) && (v <=? 65535)) eqn:E; [|discriminate].
  injection H as <-. apply andb_true_iff in E as [E1 E2].
  apply Z.leb_le in E1. apply Z.leb_le in E2. split; [reflexivity | lia].
Qed.

Lemma as_nonzero_u16_none : forall v, Serde.as_nonzero_u16 v = None -> v < 1 \/ 65535 < v.
Proof.
  intros v H. unfold Serde.as_nonzero_u16 in H.
  destruct (1 <=? v) eqn:E1; destruct (v <=? 65535) eqn:E2; try discriminate;
    [apply Z.leb_gt in E2 | apply Z.leb_gt in E1 | apply Z.leb_gt in E1]; lia.
Qed.

Lemma parse_nonzero_u16_bounds : forall t x, Serde.parse_nonzero_u16 t = Some x -> 1 <= x <= 65535.
Proof.
  intros t x H. unfold Serde.parse_nonzero_u16, option_bind in H.
  destruct (parse_u16 t) as [v|]; [|discriminate].
  apply as_nonzero_u16_some in H as [-> H]. exact H.
Qed.


Lemma unit_seq_go_spec : forall seq values, Sorted Z.lt values ->
  match Serde.unit_seq_go seq values with
  | Ok r => Sorted Z.lt r /\ (forall x, In x r <-> In x seq \/ In x values) /\
            (forall x, In x seq -> 1 <= x <= 65535)
  | Err e => e = Serde.InvalidValue /\ exists v, In v seq /\ (v < 1 \/ 65535 < v)
  end.
Proof.
  induction seq as [|v rest IH]; intros values Hv; simpl.
  - split; [exact Hv|]. split; [intros x; tauto | intros x []].
  - destruct (Serde.as_nonzero_u16 v) as [x|] eqn:E.
    + apply as_nonzero_u16_some in E as [-> Hb].
      specialize (IH (btree_insert v values) (btree_insert_sorted v values Hv)).
      destruct (Serde.unit_seq_go rest (btree_insert v values)) as [r|e].
      * destruct IH as (H1 & H2 & H3). split; [exact H1|]. split.
        -- intros x. rewrite H2, btree_insert_in. simpl. tauto.
        -- intros x [<- | Hx]; [exact Hb | apply H3; exact Hx].
      * destruct IH as (He & w & Hw & Hwb). split; [exact He|].
        exists w. split; [right; exact Hw | exact Hwb].
    + split; [reflexivity|]. exists v. split; [left; reflexivity|].
      apply as_nonzero_u16_none. exact E.
Qed.

(** A [UnitContainer] read from a sequence is the set of its elements,
    non empty and ascending; an element outside 1..=65535 is an invalid
    value, and an empty sequence is refused as of invalid length. *)
Theorem unit_visit_seq_spec : forall seq : list Z,
  match Serde.unit_visit_seq seq with
  | Ok u => exists vs, unit_iter u = Some vs /\ vs <> [] /\ Sorted Z.lt vs /\
      (forall x, In x vs -> 1 <= x <= 65535) /\ (forall x, In x vs <-> In x seq)
  | Err Serde.InvalidValue => exists v, In v seq /\ (v < 1 \/ 65535 < v)
  | Err (Serde.InvalidLength n) => n = 0%nat /\ seq = []
  end.
Proof.
  intros seq. unfold Serde.unit_visit_seq.
  pose proof (unit_seq_go_spec seq [] (Sorted_nil _)) as H.
  destruct (Serde.unit_seq_go seq []) as [r|e].
  - destruct H as (H1 & H2 & H3).
    destruct (Nat.eqb (List.length r) 0) eqn:E0.
    + split; [reflexivity|]. apply Nat.eqb_eq, length_zero_iff_nil in E0. subst r.
      destruct seq as [|v t]; [reflexivity|].
      exfalso. apply (proj2 (H2 v)). left. left. reflexivity.
    + apply Nat.eqb_neq in E0. exists r. split; [reflexivity|].
      split; [intros E1; subst r; apply E0; reflexivity|]. split; [exact H1|].
      assert (Hr : forall x, In x r <-> In x seq) by (intros x; rewrite H2; simpl; tauto).
      split; [|exact Hr]. intros x Hx. apply H3. apply Hr. exact Hx.
  - destruct H as [-> H]. exact H.
Qed.

Lemma unit_map_go_range : forall es mn mx st u,
  (forall m, mn = Some m -> 1 <= m <= 65535) ->
  (forall m, mx = Some m -> 1 <= m <= 65535) ->
  st <> Some 0%nat ->
  Serde.unit_map_go es mn mx st = Ok u ->
  exists a b st', u = AsRange a b st' /\ 1 <= a <= 65535 /\ 1 <= b <= 65535 /\ st' <> Some 0%nat.
Proof.
  induction es as [|[k v] rest IH]; intros mn mx st u Hmn Hmx Hst H; simpl in H.
  - injection H as <-. eexists _, _, _. split; [reflexivity|].
    split; [destruct mn as [m|]; [apply Hmn; reflexivity | lia]|].
    split; [destruct mx as [m|]; [apply Hmx; reflexivity | lia] | exact Hst].
  - destruct (Serde.as_nonzero_u16 v) as [x|] eqn:E; [|discriminate].
    apply as_nonzero_u16_some in E as [-> Hb].
    destruct (String.eqb k "min"); [|destruct (String.eqb k "max");
      [|destruct (String.eqb k "step")]]; (eapply IH; [| | | exact H]);
      try (intros m Em; injection Em as <-; exact Hb); auto.
    intros E. injection E as E. lia.
Qed.

(** A [UnitContainer] read from a map (keys [min], [max], [step], each an
    integer in 1..=65535; [min] defaults to 1 and [max] to 65535) never
    panics when iterated: its step is never 0, and it yields an ascending
    list of values in 1..=65535. *)
Theorem unit_visit_map_iter : forall (entries : list (string * Z)) (u : UnitContainer),
  Serde.unit_visit_map entries = Ok u ->
  exists vs, unit_iter u = Some vs /\ StronglySorted Z.lt vs /\
             forall x, In x vs -> 1 <= x <= 65535.
Proof.
  intros entries u H.
  destruct (unit_map_go_range entries None None None u) as (a & b & st & -> & Ha & Hb & Hst);
    try discriminate; [exact H|].
  simpl. destruct st as [[|k]|]; [contradiction| |].
  - exists (step_go k 0 (range_inclusive a b)). split; [reflexivity|].
    split; [apply step_go_sorted, range_inclusive_strict|].
    intros x Hx. apply step_go_incl, range_inclusive_in in Hx. lia.
  - exists (range_inclusive a b). split; [reflexivity|].
    split; [apply range_inclusive_strict|].
    intros x Hx. apply range_inclusive_in in Hx. lia.
Qed.

(** A padding read from a string panics when the string holds fewer than
    four numbers (none included); otherwise the first four are top, right,
    bottom and left, and any further ones are ignored.  The shorthand
    forms for one to three values are never reached. *)
Theorem padding_visit_str_first_four : forall v : string,
  Serde.padding_visit_str v =
  match Fontsizing.collect_results (map parse_u16 (split_whitespace v)) with
  | None => Some (Err Serde.InvalidValue)
  | Some (top :: right0 :: bottom :: left0 :: _) => Some (Ok (mkPadding top bottom left0 right0))
  | Some _ => None
  end.
Proof.
  intros v. unfold Serde.padding_visit_str.
  destruct (Fontsizing.collect_results (map parse_u16 (split_whitespace v)))
    as [[|a [|b [|c [|d rest]]]]|]; reflexivity.
Qed.

Lemma padding_seq_go_spec : forall seq values, (List.length values <= 4)%nat ->
  Serde.padding_seq_go seq values =
  match Fontsizing.collect_results (map Serde.as_u16 (firstn (5 - List.length values) seq)) with
  | None => Err Serde.InvalidValue
  | Some vs => Ok (values ++ vs)
  end.
Proof.
  induction seq as [|v rest IH]; intros values Hl.
  - rewrite firstn_nil. simpl. rewrite app_nil_r. reflexivity.
  - replace (5 - List.length values)%nat with (S (4 - List.length values)) by lia.
    cbn [Serde.padding_seq_go firstn map Fontsizing.collect_results].
    destruct (Serde.as_u16 v) as [x|]; [|reflexivity].
    rewrite length_app. cbn [List.length].
    destruct (Nat.ltb 4 (List.length values + 1)) eqn:E.
    + apply Nat.ltb_lt in E. replace (4 - List.length values)%nat with 0%nat by lia.
      reflexivity.
    + apply Nat.ltb_ge in E. rewrite IH by (rewrite length_app; cbn [List.length]; lia).
      rewrite length_app. cbn [List.length].
      replace (5 - (List.length values + 1))%nat with (4 - List.length values)%nat by lia.
      destruct (Fontsizing.collect_results
                  (map Serde.as_u16 (firstn (4 - List.length values) rest))); cbn [option_map];
        [rewrite <- app_assoc; reflexivity | reflexivity].
Qed.

(** A padding read from a sequence looks at its first five elements only
    (a bad sixth one goes unnoticed); it panics when there are fewer than
    four, and otherwise takes the first four as top, right, bottom and
    left. *)
Theorem padding_visit_seq_first_four : forall seq : list Z,
  Serde.padding_visit_seq seq =
  match Fontsizing.collect_results (map Serde.as_u16 (firstn 5 seq)) with
  | None => Some (Err Serde.InvalidValue)
  | Some (top :: right0 :: bottom :: left0 :: _) => Some (Ok (mkPadding top bottom left0 right0))
  | Some _ => None
  end.
Proof.
  intros seq. unfold Serde.padding_visit_seq.
  rewrite (padding_seq_go_spec seq [] ltac:(simpl; lia)). cbn [List.length Nat.sub].
  destruct (Fontsizing.collect_results (map Serde.as_u16 (firstn 5 seq)))
    as [[|a [|b [|c [|d rest]]]]|]; reflexivity.
Qed.

(** ** The padding of a [PaddedTextBox] *)

Lemma pos_iter_check : forall (chk : Z -> bool) (p : positive),
  let r := Pos.iter (fun acc : bool * Z => (fst acc && chk (snd acc), snd acc + 1)) (true, 0) p in
  snd r = Z.pos p /\ (fst r = true -> forall m, 0 <= m < Z.pos p -> chk m = true).
Proof.
  intros chk p. induction p as [|p IH] using Pos.peano_ind; cbv zeta in *.
  - simpl. split; [reflexivity|]. intros H m Hm. assert (m = 0) as -> by lia.
    exact H.
  - rewrite Pos.iter_succ. destruct IH as [H1 H2].
    destruct (Pos.iter (fun acc : bool * Z => (fst acc && chk (snd acc), snd acc + 1))
                (true, 0) p) as [b n].
    simpl in *. subst n. split; [lia|]. intros H m Hm.
    apply andb_true_iff in H as [Hb Hc].
    destruct (Z.eq_dec m (Z.pos p)) as [->|Hne]; [exact Hc | apply H2; [exact Hb | lia]].
Qed.

Lemma u16_to_string_ok : forall n, 0 <= n <= 65535 ->
  parse_u16 (Padded.u16_to_string n) = Some n /\
  no_whitespace (Padded.u16_to_string n) = true /\ Padded.u16_to_string n <> EmptyString.
Proof.
  intros n Hn.
  pose proof (pos_iter_check (fun n =>
    let t := Padded.u16_to_string n in
    match parse_u16 t with Some m => Z.eqb m n | None => false end &&
    no_whitespace t && negb (String.eqb t EmptyString)) 65536) as [_ H].
  specialize (H ltac:(vm_compute; reflexivity) n ltac:(lia)). cbv beta zeta in H.
  apply andb_true_iff in H as [H H3]. apply andb_true_iff in H as [H1 H2].
  split; [|split; [exact H2|]].
  - destruct (parse_u16 (Padded.u16_to_string n)); [|discriminate].
    apply Z.eqb_eq in H1. subst. reflexivity.
  - apply negb_true_iff, String.eqb_neq in H3. exact H3.
Qed.

Lemma split_ws_go_space : forall t r, t <> EmptyString -> no_whitespace t = true ->
  split_ws_go (t ++ " " ++ r) [] = t :: split_ws_go r [].
Proof.
  intros t r Hne Hw. rewrite (split_ws_go_token t _ [] Hw), app_nil_r. simpl.
  destruct (rev (list_ascii_of_string t)) as [|c l] eqn:Er.
  - destruct t; [contradiction|]. simpl in Er.
    destruct (rev (list_ascii_of_string t)); discriminate.
  - rewrite <- Er, rev_involutive, string_of_list_ascii_of_string. reflexivity.
Qed.

Lemma split_ws_go_single : forall t, t <> EmptyString -> no_whitespace t = true ->
  split_ws_go t [] = [t].
Proof.
  intros t Hne Hw. rewrite <- (string_append_empty_r t) at 1.
  rewrite (split_ws_go_token t _ [] Hw), app_nil_r. simpl.
  destruct (rev (list_ascii_of_string t)) as [|c l] eqn:Er.
  - destruct t; [contradiction|]. simpl in Er.
    destruct (rev (list_ascii_of_string t)); discriminate.
  - rewrite <- Er, rev_involutive, string_of_list_ascii_of_string. reflexivity.
Qed.

(** A padding printed with [Display] reads back, through [from_str], as
    the same padding. *)
Theorem padding_display_from_str_round_trip : forall p : Padded.PaddingSpecification,
  0 <= Padded.top p <= 65535 -> 0 <= Padded.right p <= 65535 ->
  0 <= Padded.bottom p <= 65535 -> 0 <= Padded.left p <= 65535 ->
  Padded.from_str (Padded.to_string p) = Ok p.
Proof.
  intros [l r t b] Ht Hr Hb Hl. simpl in *.
  destruct (u16_to_string_ok t Ht) as (Pt & Wt & Nt).
  destruct (u16_to_string_ok r Hr) as (Pr & Wr & Nr).
  destruct (u16_to_string_ok b Hb) as (Pb & Wb & Nb).
  destruct (u16_to_string_ok l Hl) as (Pl & Wl & Nl).
  unfold Padded.from_str, Padded.to_string, split_whitespace. cbn [Padded.top Padded.right Padded.bottom Padded.left].
  rewrite (split_ws_go_space _ _ Nt Wt), (split_ws_go_space _ _ Nr Wr),
    (split_ws_go_space _ _ Nb Wb), (split_ws_go_single _ Nl Wl).
  cbn [map]. rewrite Pt, Pr, Pb, Pl. reflexivity.
Qed.

(** ** Markup checks *)

Lemma markup_trim_start_length : forall s,
  (String.length (Markup.trim_start s) <= String.length s)%nat.
Proof.
  induction s as [|c r IH]; [reflexivity|].
  cbn [Markup.trim_start]. destruct (is_whitespace c); cbn [String.length]; lia.
Qed.

Lemma markup_trim_start_idem : forall s,
  Markup.trim_start (Markup.trim_start s) = Markup.trim_start s.
Proof.
  induction s as [|c r IH]; [reflexivity|].
  cbn [Markup.trim_start]. destruct (is_whitespace c) eqn:E; [exact IH|].
  cbn [Markup.trim_start]. rewrite E. reflexivity.
Qed.

Lemma markup_trim_end_idem : forall s,
  Markup.trim_end (Markup.trim_end s) = Markup.trim_end s.
Proof.
  induction s as [|c r IH]; [reflexivity|].
  cbn [Markup.trim_end].
  destruct (String.eqb (Markup.trim_end r) EmptyString && is_whitespace c) eqn:E;
    [reflexivity|].
  cbn [Markup.trim_end]. rewrite IH, E. reflexivity.
Qed.

Lemma markup_trim_start_trim_end : forall s,
  Markup.trim_start s = s -> Markup.trim_start (Markup.trim_end s) = Markup.trim_end s.
Proof.
  intros [|c r] H; [reflexivity|].
  cbn [Markup.trim_start] in H. destruct (is_whitespace c) eqn:E.
  - exfalso. assert (Hl := f_equal String.length H).
    pose proof (markup_trim_start_length r) as Hr. cbn [String.length] in Hl. lia.
  - cbn [Markup.trim_end]. rewrite E, andb_false_r.
    cbn [Markup.trim_start]. rewrite E. reflexivity.
Qed.

Lemma markup_trim_idem : forall s, Markup.trim (Markup.trim s) = Markup.trim s.
Proof.
  intros s. unfold Markup.trim.
  rewrite (markup_trim_start_trim_end _ (markup_trim_start_idem s)).
  apply markup_trim_end_idem.
Qed.

Lemma markup_trim_end_cons : forall c y,
  Markup.trim_end (String c y) = String c y <->
  Markup.trim_end y = y /\ (y <> EmptyString \/ is_whitespace c = false).
Proof.
  intros c y. cbn [Markup.trim_end]. split.
  - destruct (String.eqb (Markup.trim_end y) EmptyString && is_whitespace c) eqn:E;
      [discriminate|].
    intros H. injection H as H. split; [exact H|].
    rewrite H in E. destruct y; [right; exact E|left; discriminate].
  - intros [H [Hy|Hc]]; rewrite H.
    + destruct y; [contradiction|reflexivity].
    + rewrite Hc, andb_false_r. reflexivity.
Qed.

Lemma markup_starts_with_whitespace_replace_all : forall s,
  Markup.starts_with_whitespace (Markup.replace_all s) = Markup.starts_with_whitespace s.
Proof.
  intros [|c r]; [reflexivity|]. cbn [Markup.replace_all].
  destruct (Ascii.eqb c "&"%char && Markup.starts_with_whitespace r) eqn:E.
  - apply andb_true_iff in E as [E _]. apply Ascii.eqb_eq in E. subst c. reflexivity.
  - reflexivity.
Qed.

Lemma markup_replace_all_nonempty : forall s,
  s <> EmptyString -> Markup.replace_all s <> EmptyString.
Proof.
  intros [|c r] H; [contradiction|]. cbn [Markup.replace_all].
  destruct (Ascii.eqb c "&"%char && Markup.starts_with_whitespace r); discriminate.
Qed.

Lemma markup_replace_all_trim_start : forall s,
  Markup.trim_start s = s -> Markup.trim_start (Markup.replace_all s) = Markup.replace_all s.
Proof.
  intros [|c r] H; [reflexivity|].
  cbn [Markup.trim_start] in H. destruct (is_whitespace c) eqn:Ec.
  - exfalso. assert (Hl := f_equal String.length H).
    pose proof (markup_trim_start_length r) as Hr. cbn [String.length] in Hl. lia.
  - cbn [Markup.replace_all].
    destruct (Ascii.eqb c "&"%char && Markup.starts_with_whitespace r); [reflexivity|].
    cbn [Markup.trim_start]. rewrite Ec. reflexivity.
Qed.

Lemma markup_replace_all_trim_end : forall s,
  Markup.trim_end s = s -> Markup.trim_end (Markup.replace_all s) = Markup.replace_all s.
Proof.
  induction s as [|c r IH]; intros H; [reflexivity|].
  apply markup_trim_end_cons in H as [Hr Hc].
  assert (Hne : r <> EmptyString -> Markup.replace_all r <> EmptyString)
    by apply markup_replace_all_nonempty.
  cbn [Markup.replace_all].
  destruct (Ascii.eqb c "&"%char && Markup.starts_with_whitespace r) eqn:E.
  - assert (Hr0 : r <> EmptyString) by (destruct r; [discriminate (proj2 (proj1 (andb_true_iff _ _) E))|discriminate]).
    assert (H1 := IH Hr).
    cbn [append].
    repeat (apply markup_trim_end_cons; split; [|right; reflexivity]).
    exact H1.
  - apply markup_trim_end_cons. split; [exact (IH Hr)|].
    destruct Hc as [Hy|Hc]; [left; apply Hne, Hy|right; exact Hc].
Qed.

Lemma markup_is_match_replace_all : forall s, Markup.is_match (Markup.replace_all s) = false.
Proof.
  induction s as [|c r IH]; [reflexivity|]. cbn [Markup.replace_all].
  destruct (Ascii.eqb c "&"%char && Markup.starts_with_whitespace r) eqn:E.
  - cbn [append Markup.is_match Markup.starts_with_whitespace]. rewrite IH. reflexivity.
  - cbn [Markup.is_match]. rewrite markup_starts_with_whitespace_replace_all, E, IH.
    reflexivity.
Qed.

Lemma markup_replace_all_id : forall s, Markup.is_match s = false -> Markup.replace_all s = s.
Proof.
  induction s as [|c r IH]; intros H; [reflexivity|].
  cbn [Markup.is_match] in H. apply orb_false_iff in H as [H1 H2].
  cbn [Markup.replace_all]. rewrite H1, (IH H2). reflexivity.
Qed.

Lemma markup_all_whitespace_replace_all : forall s,
  all_whitespace s = false -> all_whitespace (Markup.replace_all s) = false.
Proof.
  induction s as [|c r IH]; intros H; [discriminate|].
  cbn [Markup.replace_all].
  destruct (Ascii.eqb c "&"%char && Markup.starts_with_whitespace r); [reflexivity|].
  cbn [all_whitespace] in *. destruct (is_whitespace c); [|reflexivity].
  exact (IH H).
Qed.

Lemma markup_contains_nul_replace_all : forall s,
  Markup.contains_char Markup.NULL_CHAR (Markup.replace_all s) =
  Markup.contains_char Markup.NULL_CHAR s.
Proof.
  induction s as [|c r IH]; [reflexivity|]. cbn [Markup.replace_all].
  destruct (Ascii.eqb c "&"%char && Markup.starts_with_whitespace r) eqn:E.
  - apply andb_true_iff in E as [E _]. apply Ascii.eqb_eq in E. subst c.
    cbn [append Markup.contains_char]. rewrite IH. reflexivity.
  - cbn [Markup.contains_char]. rewrite IH. reflexivity.
Qed.

Lemma markup_all_whitespace_trim_start : forall s,
  all_whitespace (Markup.trim_start s) = all_whitespace s.
Proof.
  induction s as [|c r IH]; [reflexivity|]. cbn [Markup.trim_start].
  destruct (is_whitespace c) eqn:E; [|reflexivity].
  cbn [all_whitespace]. rewrite E. exact IH.
Qed.

Lemma markup_all_whitespace_trim_end : forall s,
  all_whitespace (Markup.trim_end s) = all_whitespace s.
Proof.
  induction s as [|c r IH]; [reflexivity|]. cbn [Markup.trim_end].
  destruct (String.eqb (Markup.trim_end r) EmptyString && is_whitespace c) eqn:E.
  - apply andb_true_iff in E as [E1 E2]. apply String.eqb_eq in E1.
    rewrite E1 in IH. cbn [all_whitespace]. rewrite E2, <- IH. reflexivity.
  - cbn [all_whitespace]. rewrite IH. reflexivity.
Qed.

Lemma markup_contains_trim_start : forall c s, is_whitespace c = false ->
  Markup.contains_char c (Markup.trim_start s) = Markup.contains_char c s.
Proof.
  intros c s Hc. induction s as [|d r IH]; [reflexivity|]. cbn [Markup.trim_start].
  destruct (is_whitespace d) eqn:E; [|reflexivity].
  cbn [Markup.contains_char]. rewrite IH.
  destruct (Ascii.eqb c d) eqn:Ecd; [|reflexivity].
  apply Ascii.eqb_eq in Ecd. subst d. congruence.
Qed.

Lemma markup_contains_trim_end : forall c s, is_whitespace c = false ->
  Markup.contains_char c (Markup.trim_end s) = Markup.contains_char c s.
Proof.
  intros c s Hc. induction s as [|d r IH]; [reflexivity|]. cbn [Markup.trim_end].
  destruct (String.eqb (Markup.trim_end r) EmptyString && is_whitespace d) eqn:E.
  - apply andb_true_iff in E as [E1 E2]. apply String.eqb_eq in E1.
    rewrite E1 in IH. cbn [Markup.contains_char]. rewrite <- IH.
    destruct (Ascii.eqb c d) eqn:Ecd; [|reflexivity].
    apply Ascii.eqb_eq in Ecd. subst d. congruence.
  - cbn [Markup.contains_char]. rewrite IH. reflexivity.
Qed.

Lemma markup_contains_nul_trim : forall s,
  Markup.contains_char Markup.NULL_CHAR (Markup.trim s) =
  Markup.contains_char Markup.NULL_CHAR s.
Proof.
  intros s. unfold Markup.trim.
  rewrite markup_contains_trim_end, markup_contains_trim_start by reflexivity.
  reflexivity.
Qed.

Lemma markup_all_whitespace_trim : forall s,
  all_whitespace (Markup.trim s) = all_whitespace s.
Proof.
  intros s. unfold Markup.trim.
  rewrite markup_all_whitespace_trim_end. apply markup_all_whitespace_trim_start.
Qed.

Lemma markup_trim_replace_all : forall s,
  Markup.trim s = s -> Markup.trim (Markup.replace_all s) = Markup.replace_all s.
Proof.
  intros s H. unfold Markup.trim in *.
  assert (Hs : Markup.trim_start s = s).
  { rewrite <- H. apply markup_trim_start_trim_end. apply markup_trim_start_idem. }
  assert (He : Markup.trim_end s = s) by (rewrite Hs in H; exact H).
  rewrite (markup_replace_all_trim_start _ Hs).
  exact (markup_replace_all_trim_end _ He).
Qed.

Lemma markup_fix_ampersands_spec : forall s,
  Markup.trim s = s ->
  let t := if Markup.contains_char "&"%char s && Markup.is_match s
           then Markup.replace_all s else s in
  Markup.trim t = t /\ Markup.is_match t = false /\
  all_whitespace t = all_whitespace s && all_whitespace t /\
  Markup.contains_char Markup.NULL_CHAR t = Markup.contains_char Markup.NULL_CHAR s.
Proof.
  intros s Hs t. subst t.
  destruct (Markup.contains_char "&"%char s && Markup.is_match s) eqn:E.
  - apply andb_true_iff in E as [_ E].
    split; [exact (markup_trim_replace_all _ Hs)|].
    split; [apply markup_is_match_replace_all|].
    split; [|apply markup_contains_nul_replace_all].
    destruct (all_whitespace s) eqn:Ew; [reflexivity|].
    rewrite (markup_all_whitespace_replace_all _ Ew). reflexivity.
  - split; [exact Hs|]. split; [|split; [rewrite andb_diag; reflexivity|reflexivity]].
    destruct (Markup.is_match s) eqn:Em; [|reflexivity].
    (* an isolated ampersand contains an ampersand *)
    exfalso. rewrite andb_true_r in E.
    clear Hs. induction s as [|c r IH]; [discriminate|].
    cbn [Markup.is_match Markup.contains_char] in *.
    apply orb_false_iff in E as [E1 E2].
    apply orb_true_iff in Em as [Em|Em].
    + apply andb_true_iff in Em as [Em _]. apply Ascii.eqb_eq in Em. subst c.
      discriminate.
    + exact (IH Em E2).
Qed.

(** The checks of [PangoCompatibleString::new] hold of every string it
    returns. *)
Lemma pcs_new_ok_inv : forall (parse : string -> result unit string) s t,
  Markup.PangoCompatibleString_new parse s = Ok t ->
  all_whitespace t = false /\ Markup.contains_char Markup.NULL_CHAR t = false /\
  Markup.trim t = t /\ Markup.is_match t = false /\
  exists u, parse t = Ok u.
Proof.
  intros parse s t H. unfold Markup.PangoCompatibleString_new in H.
  destruct (all_whitespace s) eqn:Ew; [discriminate|].
  destruct (Markup.contains_char Markup.NULL_CHAR s) eqn:En; [discriminate|].
  destruct (markup_fix_ampersands_spec (Markup.trim s) (markup_trim_idem s))
    as (Ht & Hm & Hw & Hn).
  revert Ht Hm Hw Hn H.
  set (t0 := if Markup.contains_char "&"%char (Markup.trim s) &&
                Markup.is_match (Markup.trim s)
             then Markup.replace_all (Markup.trim s) else Markup.trim s).
  intros Ht Hm Hw Hn H.
  destruct (parse t0) as [u|e] eqn:Ep; [|discriminate].
  injection H as <-.
  rewrite markup_all_whitespace_trim, Ew in Hw.
  rewrite markup_contains_nul_trim, En in Hn.
  repeat split; try assumption. exists u. exact Ep.
Qed.

Lemma pcs_new_of_checked : forall (parse : string -> result unit string) t u,
  all_whitespace t = false -> Markup.contains_char Markup.NULL_CHAR t = false ->
  Markup.trim t = t -> Markup.is_match t = false -> parse t = Ok u ->
  Markup.PangoCompatibleString_new parse t = Ok t.
Proof.
  intros parse t u Hw Hn Ht Hm Hp. unfold Markup.PangoCompatibleString_new.
  rewrite Hw, Hn, Ht, Hm, andb_false_r, Hp. reflexivity.
Qed.

Lemma check_markup_eq : forall (parse : string -> result unit string) s,
  Markup.check_markup parse s =
  if Markup.MAX_MARKUP_LEN <? Z.of_nat (String.length (Markup.trim s))
  then Err Lib.MarkupTooLong
  else match Markup.PangoCompatibleString_new parse s with
       | Ok t => Ok t
       | Err Markup.PCSWhitespace => Err Lib.MarkupWhitespace
       | Err (Markup.BadChar _) => Err Lib.MarkupNullChar
       | Err (Markup.Glib msg) => Err (Lib.BadMarkup msg)
       end.
Proof.
  intros parse s. unfold Markup.check_markup, Markup.PangoCompatibleString_new,
    Markup.check_whitespace.
  destruct (Markup.MAX_MARKUP_LEN <? Z.of_nat (String.length (Markup.trim s)));
    [reflexivity|].
  rewrite markup_all_whitespace_trim, markup_contains_nul_trim, orb_diag.
  destruct (all_whitespace s) eqn:Ew.
  - rewrite orb_true_r. reflexivity.
  - rewrite orb_false_r.
    destruct (String.eqb (Markup.trim s) EmptyString) eqn:Ee.
    + apply String.eqb_eq in Ee.
      rewrite <- markup_all_whitespace_trim, Ee in Ew. discriminate.
    + destruct (Markup.contains_char Markup.NULL_CHAR s); [reflexivity|].
      destruct (parse _); reflexivity.
Qed.

(** [PangoCompatibleString::new] is idempotent: a string it accepts is
    accepted again, unchanged. *)
Theorem PangoCompatibleString_new_idempotent : forall (parse : string -> result unit string) s t,
  Markup.PangoCompatibleString_new parse s = Ok t ->
  Markup.PangoCompatibleString_new parse t = Ok t.
Proof.
  intros parse s t H.
  destruct (pcs_new_ok_inv parse s t H) as (Hw & Hn & Ht & Hm & u & Hp).
  exact (pcs_new_of_checked parse t u Hw Hn Ht Hm Hp).
Qed.

(** A string accepted by [PangoCompatibleString::new] has no leading or
    trailing whitespace, no ampersand followed by whitespace, no NUL
    character and a character that is not whitespace, and pango parses it. *)
Theorem PangoCompatibleString_new_output : forall (parse : string -> result unit string) s t,
  Markup.PangoCompatibleString_new parse s = Ok t ->
  Markup.trim t = t /\ Markup.is_match t = false /\
  Markup.contains_char Markup.NULL_CHAR t = false /\ all_whitespace t = false /\
  exists u, parse t = Ok u.
Proof.
  intros parse s t H.
  destruct (pcs_new_ok_inv parse s t H) as (Hw & Hn & Ht & Hm & Hp).
  repeat split; assumption.
Qed.

(** [check_markup] is [PangoCompatibleString::new] with a limit of 1000
    bytes on the trimmed input, checked first, and the errors renamed. *)
Theorem check_markup_as_PangoCompatibleString : forall (parse : string -> result unit string) s,
  Markup.check_markup parse s =
  if Markup.MAX_MARKUP_LEN <? Z.of_nat (String.length (Markup.trim s))
  then Err Lib.MarkupTooLong
  else match Markup.PangoCompatibleString_new parse s with
       | Ok t => Ok t
       | Err Markup.PCSWhitespace => Err Lib.MarkupWhitespace
       | Err (Markup.BadChar _) => Err Lib.MarkupNullChar
       | Err (Markup.Glib msg) => Err (Lib.BadMarkup msg)
       end.
Proof.
  exact check_markup_eq.
Qed.

(** Markup returned by [check_markup] is returned unchanged when checked
    again, unless escaping its ampersands made it longer than 1000 bytes:
    it is then refused as too long. *)
Theorem check_markup_recheck : forall (parse : string -> result unit string) s t,
  Markup.check_markup parse s = Ok t ->
  Markup.check_markup parse t =
  if Markup.MAX_MARKUP_LEN <? Z.of_nat (String.length t)
  then Err Lib.MarkupTooLong else Ok t.
Proof.
  intros parse s t H. rewrite check_markup_eq in H |- *.
  destruct (Markup.MAX_MARKUP_LEN <? Z.of_nat (String.length (Markup.trim s)));
    [discriminate|].
  destruct (Markup.PangoCompatibleString_new parse s) as [t0|[| |]] eqn:Hp;
    try discriminate.
  injection H as <-.
  destruct (pcs_new_ok_inv parse s t0 Hp) as (Hw & Hn & Ht & Hm & u & Hq).
  rewrite Ht, (pcs_new_of_checked parse t0 u Hw Hn Ht Hm Hq). reflexivity.
Qed.

(** ** The size of a rendered textbox *)


(* ================================================================= *)
(** * Instances of the theorems on concrete inputs *)

(** A text that fits exactly at the sizes up to 20, in any box. *)
Ltac solve_threshold_mono :=
  let a := fresh "a" in let b := fresh "b" in
  let Ha := fresh "Ha" in let Hb := fresh "Hb" in
  let Hab := fresh "Hab" in let Hf := fresh "Hf" in
  intros a b Ha Hb Hab Hf; simpl in Ha, Hb;
  repeat (destruct Ha as [<-|Ha]); try destruct Ha;
  repeat (destruct Hb as [<-|Hb]); try destruct Hb;
  vm_compute in Hf |- *; first [reflexivity | discriminate | lia].

Lemma grow_to_maximum_font_size_refines_linear_scan_witness :
  let o := threshold_oracle (fun _ _ => 20) (mkRect 0 0 0 0) in
  let l := mkLayout 50 50 10 "ab" in
  grow_to_maximum_font_size o [10; 20; 30] l = (Ok tt, set_font_size l 20).
Proof.
  intros o l.
  pose proof (grow_to_maximum_font_size_refines_linear_scan o [10; 20; 30] l) as H.
  cbv zeta in H. destruct H as [H _].
  - repeat constructor.
  - solve_threshold_mono.
  - exact H.
Defined.

Lemma grow_to_maximum_font_size_leaves_chosen_size_witness :
  let o := threshold_oracle (fun _ _ => 20) (mkRect 0 0 0 0) in
  let l := mkLayout 50 50 10 "ab" in
  exists x, linear_scan_max (fun x => fits o (set_font_size l x)) [10; 20; 30] = Some x /\
    fits o (set_font_size l x) = true.
Proof.
  intros o l.
  destruct (grow_to_maximum_font_size_leaves_chosen_size o [10; 20; 30] l
              (set_font_size l 20)) as (x & Hx & _ & Hl & Hf).
  - repeat constructor.
  - solve_threshold_mono.
  - reflexivity.
  - exists x. split; [exact Hx|]. rewrite <- Hl. exact Hf.
Defined.

Lemma get_best_fit_width_major_first_fit_witness :
  let o := threshold_oracle (fun w _ => if 2 <=? w then 100 else 0) (mkRect 0 0 0 0) in
  let src := mkLayoutSource [20; 10] [1; 2] [1; 2] 10 "Hello World" in
  exists m, LayoutManager_new o src = Ok m /\
    dimensions m = [(1, 1); (1, 2); (2, 1); (2, 2)] /\
    exists l, get_best_fit o m = Ok l /\
      (lay_width l, lay_height l, lay_font_size l) = (2, 1, 20).
Proof.
  intros o src. eexists. split; [reflexivity|].
  destruct (get_best_fit_width_major_first_fit o src _ eq_refl) as [Hd Hg].
  split; [rewrite Hd; reflexivity|].
  eexists. split; [rewrite Hg; reflexivity | reflexivity].
Defined.

Lemma textbox_width_candidates_unchecked_witness :
  let tb := mkTextBox "Hello World" (AsSet [100; 80]) (AsSet [50]) 0 (AsSet [10])
                      (mkPadding 1 1 2 3) in
  tb_possible_widths tb = Some [100 * SCALE - 5 * SCALE; 80 * SCALE - 5 * SCALE] /\
  exists src m, textbox_source tb = Some src /\
    LayoutManager_new (threshold_oracle (fun _ _ => 0) (mkRect 0 0 0 0)) src = Ok m.
Proof.
  intros tb.
  destruct (textbox_width_candidates_unchecked tb [100; 80] eq_refl ltac:(simpl; lia))
    as [Hw Hnew].
  split; [exact Hw|].
  eexists. assert (Hsrc : textbox_source tb = Some _) by reflexivity.
  destruct (Hnew (threshold_oracle (fun _ _ => 0) (mkRect 0 0 0 0)) _ Hsrc
              ltac:(simpl; discriminate) ltac:(simpl; discriminate)
              ltac:(simpl; discriminate)) as (m & Hm & _).
  exists m. split; [exact Hsrc | exact Hm].
Defined.

Lemma two_token_disambiguation_witness :
  (exists f, Fontsizing.from_str "100 200" = Some f /\
             Fontsizing.to_vec f = Some (range_inclusive 100 200)) /\
  (exists f, Fontsizing.from_str "200 100" = Some f /\
             Fontsizing.to_vec f = Some [100; 200]) /\
  Input.ints_from_str "70000 70002" = Ok (range_inclusive 70000 70002) /\
  Input.ints_from_str "70002 70000" = Ok [70002; 70000].
Proof.
  destruct (two_token_disambiguation "100" "200" 100 200) as [H1 _];
    try discriminate; try reflexivity.
  destruct (two_token_disambiguation "200" "100" 200 100) as [_ H2];
    try discriminate; try reflexivity.
  destruct (two_token_disambiguation "70000" "70002" 70000 70002) as [H3 _];
    try discriminate; try reflexivity.
  destruct (two_token_disambiguation "70002" "70000" 70002 70000) as [_ H4];
    try discriminate; try reflexivity.
  destruct (H1 ltac:(lia)) as (Hf1 & _ & _).
  destruct (H2 ltac:(lia)) as (Hf2 & _).
  destruct (H3 ltac:(lia)) as (_ & _ & Hi3).
  destruct (H4 ltac:(lia)) as (_ & Hi4).
  split; [apply Hf1; reflexivity|].
  split; [apply Hf2; reflexivity|].
  split; [apply Hi3; [reflexivity | reflexivity | lia]|].
  apply Hi4; [reflexivity | reflexivity | lia].
Defined.

Lemma from_vec_to_vec_round_trip_witness :
  Fontsizing.to_vec (Fontsizing.from_vec [10; 15; 20]) = Some [10; 15; 20] /\
  Fontsizing.to_vec (Fontsizing.from_vec [10; 11]) = Some [10; 11].
Proof.
  split.
  - apply (from_vec_to_vec_round_trip (Fontsizing.Range 10 20 (Some 5%nat)));
      [split; [lia | discriminate] | reflexivity].
  - apply (from_vec_to_vec_round_trip (Fontsizing.Flex [11; 10]));
      [split; [discriminate | constructor; [simpl; lia | constructor; [intros [] | constructor]]]
      | reflexivity].
Defined.

Lemma font_sizing_construction_unchecked_witness :
  Fontsizing.to_vec (Fontsizing.set_min_size (Fontsizing.Range 10 30 None) 40) = Some [] /\
  Input.from_range (Some 20) (Some 10) = Err Input.BadFontRange.
Proof.
  destruct font_sizing_construction_unchecked as (_ & _ & H3 & _ & H5).
  destruct (H3 40 30 None 10 ltac:(lia) ltac:(discriminate)) as [-> Hv].
  split; [exact Hv | apply H5; lia].
Defined.

Lemma LayoutManager_new_font_sizes_strictly_ascending_witness :
  let src := mkLayoutSource [3; 1; 3; 2] [10] [10] 12 "ab" in
  exists m, LayoutManager_new (threshold_oracle (fun _ _ => 0) (mkRect 0 0 0 0)) src = Ok m /\
    StronglySorted Z.lt (font_sizes m) /\ font_sizes m = [1; 2; 3].
Proof.
  intros src. eexists. split; [reflexivity|]. split; [|reflexivity].
  exact (proj1 (LayoutManager_new_font_sizes_strictly_ascending _ src _ eq_refl)).
Defined.

Lemma insert_background_rect_box_attrs_witness :
  let self := Rendered.mkRenderedTextbox "<svg><defs></defs></svg>"%string "10"%string "20"%string in
  let attrs := [("x", "5"); ("fill", "red")]%string in
  Rendered.get "x" (Rendered.rect_attrs (fun s => s) self attrs) = Some "0"%string /\
  Rendered.get "width" (Rendered.rect_attrs (fun s => s) self attrs) = Some "10"%string /\
  Rendered.get "fill" (Rendered.rect_attrs (fun s => s) self attrs) = Some "red"%string.
Proof.
  intros self attrs.
  destruct (RenderedProofs.insert_background_rect_box_attrs string (fun s => s) self attrs)
    as (Hx & _ & Hw & _ & Hk & _).
  - constructor; [simpl; intros [H|[]]; discriminate | constructor; [intros [] | constructor]].
  - split; [exact Hx|]. split; [exact Hw|]. apply Hk; discriminate.
Defined.

Lemma grow_to_maximum_font_size_sound_witness :
  let o := threshold_oracle (fun _ _ => 20) (mkRect 0 0 0 0) in
  let l := mkLayout 50 50 10 "ab" in
  exists x, In x [10; 20; 30] /\
    snd (grow_to_maximum_font_size o [10; 20; 30] l) = set_font_size l x /\
    fits o (set_font_size l x) = true.
Proof.
  intros o l. apply grow_to_maximum_font_size_sound. vm_compute. reflexivity.
Defined.


Lemma from_str_u16_values_witness :
  exists f, Fontsizing.from_str "12 8 10" = Some f /\
    exists ws, Fontsizing.to_vec f = Some ws /\ StronglySorted Z.lt ws /\
               forall x, In x ws -> 0 <= x <= 65535.
Proof.
  eexists. split; [reflexivity|]. eapply (from_str_u16_values "12 8 10"). reflexivity.
Defined.

Lemma blank_input_witness :
  Fontsizing.from_str "   "%string = Some Fontsizing.default /\
  ("   "%string <> EmptyString -> Input.ints_from_str "   " = Ok []).
Proof.
  apply blank_input. reflexivity.
Defined.

Lemma ints_from_str_positive_distinct_witness :
  exists vs, Input.ints_from_str "3 1 3" = Ok vs /\
    NoDup vs /\ forall x, In x vs -> 0 < x.
Proof.
  eexists. split; [reflexivity|]. eapply (ints_from_str_positive_distinct "3 1 3"). reflexivity.
Defined.

Lemma insert_background_rect_no_defs_witness :
  let self := Rendered.mkRenderedTextbox "<svg></svg>"%string "10"%string "20"%string in
  Rendered.insert_background_rect (fun s => s) self [("fill", "red")%string] = Ok self.
Proof.
  intros self. apply (insert_background_rect_no_defs string (fun s => s)).
  reflexivity.
Defined.

Lemma lib_grow_to_maximum_font_size_spec_witness :
  let o := threshold_oracle (fun _ _ => 20 * SCALE) (mkRect 0 0 0 0) in
  let l := mkLayout 50 50 10 "ab" in
  Lib.grow_to_maximum_font_size o (fun _ => 0) l = Some (Ok 20, set_font_size l (20 * SCALE)).
Proof.
  intros o l.
  destruct (lib_grow_to_maximum_font_size_spec o (fun _ => 0) l) as (r & l' & Hg & Hr).
  - intros i j Hi Hij Hj.
    unfold Lib.will_fit, Lib.fits, Lib.change_font_size, o, threshold_oracle.
    cbn. rewrite !orb_false_r, !andb_true_r.
    destruct (20480 <? j * SCALE) eqn:Ej; [discriminate|]. intros _.
    replace (20480 <? i * SCALE) with false; [reflexivity|].
    symmetry. apply Z.ltb_ge. apply Z.ltb_ge in Ej. unfold SCALE in *. lia.
  - rewrite Hg. destruct r as [n|e].
    + destruct Hr as (_ & -> & Hn & Hiff & _).
      assert (H20 := proj1 (Hiff 20 ltac:(lia)) ltac:(vm_compute; reflexivity)).
      assert (H21 : ~ 21 <= n).
      { intros H. pose proof (proj2 (Hiff 21 ltac:(lia)) H) as Hc.
        vm_compute in Hc. discriminate. }
      replace n with 20 by lia. reflexivity.
    + destruct Hr as [_ H0]. vm_compute in H0. discriminate.
Defined.


Lemma unit_visit_map_iter_witness :
  exists u, Serde.unit_visit_map [("min", 10); ("max", 20); ("step", 5)]%string = Ok u /\
    exists vs, unit_iter u = Some vs /\ StronglySorted Z.lt vs /\
               forall x, In x vs -> 1 <= x <= 65535.
Proof.
  eexists. split; [reflexivity|]. eapply (unit_visit_map_iter [("min", 10); ("max", 20); ("step", 5)]%string). reflexivity.
Defined.

Lemma padding_display_from_str_round_trip_witness :
  Padded.from_str (Padded.to_string (Padded.mkPaddingSpecification 4 0 65535 12)) =
  Ok (Padded.mkPaddingSpecification 4 0 65535 12).
Proof.
  apply padding_display_from_str_round_trip; cbn; lia.
Defined.

Lemma PangoCompatibleString_new_idempotent_witness :
  let parse := fun _ : string => (Ok tt : result unit string) in
  Markup.PangoCompatibleString_new parse " a & b "%string = Ok "a &amp; b"%string /\
  Markup.PangoCompatibleString_new parse "a &amp; b"%string = Ok "a &amp; b"%string.
Proof.
  intros parse. split; [reflexivity|].
  apply (PangoCompatibleString_new_idempotent parse " a & b "%string). reflexivity.
Defined.

Lemma PangoCompatibleString_new_output_witness :
  let parse := fun _ : string => (Ok tt : result unit string) in
  Markup.trim "x &  y"%string = "x &  y"%string /\
  Markup.is_match "x &amp;  y"%string = false /\
  Markup.PangoCompatibleString_new parse "	x &  y
"%string = Ok "x &amp;  y"%string.
Proof.
  intros parse.
  assert (H : Markup.PangoCompatibleString_new parse "	x &  y
"%string = Ok "x &amp;  y"%string) by reflexivity.
  destruct (PangoCompatibleString_new_output parse _ _ H) as (_ & Hm & _).
  split; [reflexivity|]. split; [exact Hm | exact H].
Defined.

Lemma check_markup_recheck_witness :
  let parse := fun _ : string => (Ok tt : result unit string) in
  let s := fold_right append "a"%string (repeat "& "%string 400) in
  let t := fold_right append "a"%string (repeat "&amp; "%string 400) in
  Markup.check_markup parse s = Ok t /\
  Markup.check_markup parse t = Err Lib.MarkupTooLong.
Proof.
  intros parse s t.
  assert (H : Markup.check_markup parse s = Ok t) by (vm_compute; reflexivity).
  split; [exact H|].
  rewrite (check_markup_recheck parse s t H). vm_compute. reflexivity.
Defined.

